(** * numenc: order-preserving byte encodings of fixed-width numbers

    A shallow embedding of [numenc-cpp/encoder_decoder.cpp] and the
    properties of its twenty entry points ([from_int8] ... [to_float64]).

    Conventions of the model.
    - A Python [int] argument is a [Z]; a Python [bytes] object is a
      [list byte]; a C [float] or [double] is the [Z] holding its IEEE-754
      bit pattern (the conversion done by the ["f"] and ["d"] formats of
      [PyArg_ParseTuple] is outside the model).
    - A C buffer is a [list Z] whose cells hold the 8 bits of each [char] as
      a number in [0, 255]; every store reduces modulo 256, so the signedness
      of plain [char] plays no role.
    - C [int] is 32 bits wide, [short] 16, [long long] 64; signed
      conversions wrap (two's complement).
    - The host is a parameter: its byte order fixes what [endianness_impl]
      finds and how the bytes of a [float] lie in memory (floats are stored
      in the byte order of the integers). *)

From Stdlib Require Import ZArith List Bool Lia.
From Stdlib Require Import Strings.Byte.
From Stdlib Require Import Floats.SpecFloat.
Import ListNotations.
Local Open Scope Z_scope.

(** ** Results and errors *)

(** The two uses of [PyExc_ValueError] in the source are told apart by their
    message: ["expected N-bit ... integer (range ...)"] and
    ["Illegal input: expected bytes of length ..."]. *)
Inductive message : Set :=
| expected_range
| expected_length.

Inductive exn : Set :=
| PyExc_TypeError
| PyExc_ValueError (m : message).

Inductive result (A : Type) : Type :=
| Ok (a : A)
| Raise (e : exn).

Arguments Ok {A} a.
Arguments Raise {A} e.

Definition TypeMismatch : exn := PyExc_TypeError.
Definition RangeError : exn := PyExc_ValueError expected_range.
Definition LengthError : exn := PyExc_ValueError expected_length.

(** ** C integer conversions *)

Definition to_unsigned (bits x : Z) : Z := x mod 2 ^ bits.

Definition to_signed (bits x : Z) : Z :=
  (x + 2 ^ (bits - 1)) mod 2 ^ bits - 2 ^ (bits - 1).

Definition ONE_BYTE : nat := 1.
Definition TWO_BYTES : nat := 2.
Definition FOUR_BYTES : nat := 4.
Definition EIGHT_BYTES : nat := 8.

(** ** Bytes and buffers *)

Definition cell_of_byte (b : byte) : Z := Z.of_N (Byte.to_N b).

Definition byte_of_cell (c : Z) : byte :=
  match Byte.of_N (Z.to_N (c mod 256)) with
  | Some b => b
  | None => x00
  end.

(** [(unsigned char) input[i]] for [const char* input] *)
Definition uchar_at (input : list byte) (i : nat) : Z :=
  cell_of_byte (nth i input x00).

(** [PyMem_RawMalloc(n)]: the cells are all written before they are read;
    the [NULL] result and the [PyErr_NoMemory] return are not modelled. *)
Definition PyMem_RawMalloc (n : nat) : list Z := repeat 0 n.

Fixpoint store (buffer : list Z) (i : nat) (v : Z) : list Z :=
  match buffer, i with
  | [], _ => []
  | _ :: rest, O => v mod 256 :: rest
  | c :: rest, S j => c :: store rest j v
  end.

Definition load (buffer : list Z) (i : nat) : Z := nth i buffer 0.

Definition PyBytes_FromStringAndSize (buffer : list Z) (n : nat) : list byte :=
  map byte_of_cell (firstn n buffer).

(** [for (int i = 0; i < n; i++) body] *)
Fixpoint for_from {T : Type} (i count : nat) (body : nat -> T -> T) (s : T) : T :=
  match count with
  | O => s
  | S c => for_from (S i) c body (body i s)
  end.

Definition for_loop {T : Type} (n : nat) (body : nat -> T -> T) (s : T) : T :=
  for_from 0 n body s.

(** ** Argument parsing (CPython) *)

(** The formats ["h"], ["i"] and ["L"] convert a Python integer to [short],
    [int] and [long long] with overflow checking: a value that does not fit
    makes [PyArg_ParseTuple] fail. *)
Definition parse_signed (bits arg : Z) : option Z :=
  if (- 2 ^ (bits - 1) <=? arg) && (arg <=? 2 ^ (bits - 1) - 1)
  then Some arg else None.

Definition PyArg_Parse_h : Z -> option Z := parse_signed 16.
Definition PyArg_Parse_i : Z -> option Z := parse_signed 32.
Definition PyArg_Parse_L : Z -> option Z := parse_signed 64.

(** [PyLong_AsUnsignedLongLong]: the value, and whether an error is pending
    afterwards ([PyErr_Occurred]); on error it returns
    [(unsigned long long)-1]. *)
Definition PyLong_AsUnsignedLongLong (arg : Z) : Z * bool :=
  if (0 <=? arg) && (arg <=? 2 ^ 64 - 1)
  then (arg, false) else (to_unsigned 64 (-1), true).

(** ** IEEE-754 bit patterns *)

Record float_format : Set := { mant_bits : Z; exp_bits : Z }.

Definition binary32 : float_format := {| mant_bits := 23; exp_bits := 8 |}.
Definition binary64 : float_format := {| mant_bits := 52; exp_bits := 11 |}.

Definition float_width (f : float_format) : Z := 1 + exp_bits f + mant_bits f.

(** The value denoted by a bit pattern: sign, biased exponent, fraction. *)
Definition bits_to_SF (f : float_format) (x : Z) : spec_float :=
  let s := Z.testbit x (exp_bits f + mant_bits f) in
  let e := (x / 2 ^ mant_bits f) mod 2 ^ exp_bits f in
  let m := x mod 2 ^ mant_bits f in
  let bias := 2 ^ (exp_bits f - 1) - 1 in
  if e =? 0 then
    match m with
    | Zpos p => S754_finite s p (1 - bias - mant_bits f)
    | _ => S754_zero s
    end
  else if e =? 2 ^ exp_bits f - 1 then
    match m with
    | Z0 => S754_infinity s
    | _ => S754_nan
    end
  else
    match m + 2 ^ mant_bits f with
    | Zpos p => S754_finite s p (e - bias - mant_bits f)
    | _ => S754_nan
    end.

Definition is_nan (f : float_format) (x : Z) : bool :=
  match bits_to_SF f x with
  | S754_nan => true
  | _ => false
  end.

(** C comparisons on floating-point values *)
Definition float_lt (f : float_format) (a b : Z) : bool :=
  SFltb (bits_to_SF f a) (bits_to_SF f b).


(** [input >= 0] *)
Definition float_ge0 (f : float_format) (input : Z) : bool :=
  SFleb (S754_zero false) (bits_to_SF f input).

(** [input < 0] *)
Definition float_lt0 (f : float_format) (input : Z) : bool :=
  SFltb (bits_to_SF f input) (S754_zero false).

(** ** The host *)

Inductive byte_order : Set :=
| BigEndian
| LittleEndian.

(** Most significant byte first: cell [i] of [be_cells n x] holds bits
    [8(n-1-i) .. 8(n-i)) of [x]. *)
Fixpoint be_cells (n : nat) (x : Z) : list Z :=
  match n with
  | O => []
  | S k => Z.land (Z.shiftr x (8 * Z.of_nat k)) 0xff :: be_cells k x
  end.

Fixpoint be_value (cells : list Z) : Z :=
  match cells with
  | [] => 0
  | c :: rest => c * 256 ^ Z.of_nat (length rest) + be_value rest
  end.

(** The bytes of an [n]-byte scalar as they lie in memory, and back. *)
Definition object_bytes (h : byte_order) (n : nat) (x : Z) : list Z :=
  match h with
  | BigEndian => be_cells n x
  | LittleEndian => rev (be_cells n x)
  end.

Definition object_value (h : byte_order) (cells : list Z) : Z :=
  match h with
  | BigEndian => be_value cells
  | LittleEndian => be_value (rev cells)
  end.

Section Host.

Variable host : byte_order.

(** [endianness_impl]: 0 on a big-endian machine, 1 on a little-endian one. *)
Definition endianness_impl : Z :=
  let number := object_bytes host 2 0x1 in
  if load number 0 =? 1 then 1 else 0.

Definition ENDIANNESS : Z := endianness_impl.

(** *** Blocks shared by the entry points

    The same [if (ENDIANNESS == 0) { for ... } else { for ... }] text occurs
    in every multi-byte function, with only the width changed. *)

(** [buffer[..] = (input >> (i * 8)) & 0xff] *)
Definition put_shifted (n : nat) (input : Z) (buffer : list Z) : list Z :=
  if ENDIANNESS =? 0 then
    for_loop n (fun i buf =>
      store buf i (Z.land (Z.shiftr input (Z.of_nat i * 8)) 0xff)) buffer
  else
    for_loop n (fun i buf =>
      store buf (n - 1 - i) (Z.land (Z.shiftr input (Z.of_nat i * 8)) 0xff)) buffer.

(** [decoded |= ((T) buffer[..]) << (i * 8)], where [cast] is the conversion
    of the shifted operand to [T] *)
Definition or_shifted (n : nat) (cast : Z -> Z) (buffer : list Z) : Z :=
  if ENDIANNESS =? 0 then
    for_loop n (fun i decoded =>
      Z.lor decoded (cast (Z.shiftl (load buffer i) (Z.of_nat i * 8)))) 0
  else
    for_loop n (fun i decoded =>
      Z.lor decoded (cast (Z.shiftl (load buffer (n - 1 - i)) (Z.of_nat i * 8)))) 0.

(** [buffer[..] = op(source[i])], with [op] the identity or [~] *)
Definition copy_ordered (n : nat) (op : Z -> Z) (source buffer : list Z) : list Z :=
  if ENDIANNESS =? 0 then
    for_loop n (fun i buf => store buf i (op (load source i))) buffer
  else
    for_loop n (fun i buf => store buf (n - 1 - i) (op (load source i))) buffer.

(** *** 8-bit integers *)

Definition from_int8 (arg : Z) : result (list byte) :=
  match PyArg_Parse_i arg with
  | None => Raise PyExc_TypeError
  | Some input =>
    if (input <? -128) || (input >? 127) then Raise (PyExc_ValueError expected_range)
    else
      let buffer := PyMem_RawMalloc ONE_BYTE in
      let buffer := store buffer 0 input in
      let buffer := store buffer 0 (Z.lxor (load buffer 0) 0x80) in
      Ok (PyBytes_FromStringAndSize buffer ONE_BYTE)
  end.

Definition to_int8 (input : list byte) : result Z :=
  let count := length input in
  if negb (count =? ONE_BYTE)%nat then Raise (PyExc_ValueError expected_length)
  else
    let decoded := to_signed 8 (Z.lxor (uchar_at input 0) 0x80) in
    Ok decoded.

Definition from_uint8 (arg : Z) : result (list byte) :=
  match PyArg_Parse_i arg with
  | None => Raise PyExc_TypeError
  | Some input =>
    if (input <? 0) || (input >? 255) then Raise (PyExc_ValueError expected_range)
    else
      let buffer := PyMem_RawMalloc ONE_BYTE in
      let buffer := store buffer 0 (to_unsigned 8 input) in
      Ok (PyBytes_FromStringAndSize buffer ONE_BYTE)
  end.

Definition to_uint8 (input : list byte) : result Z :=
  let count := length input in
  if negb (count =? ONE_BYTE)%nat then Raise (PyExc_ValueError expected_length)
  else
    let decoded := to_unsigned 8 (uchar_at input 0) in
    Ok decoded.

(** *** 16-bit integers *)

Definition from_int16 (arg : Z) : result (list byte) :=
  match PyArg_Parse_h arg with
  | None => Raise PyExc_TypeError
  | Some input =>
    let buffer := PyMem_RawMalloc TWO_BYTES in
    let buffer := put_shifted TWO_BYTES input buffer in
    let buffer := store buffer 0 (Z.lxor (load buffer 0) 0x80) in
    Ok (PyBytes_FromStringAndSize buffer TWO_BYTES)
  end.

Definition to_int16 (input : list byte) : result Z :=
  let count := length input in
  if negb (count =? TWO_BYTES)%nat then Raise (PyExc_ValueError expected_length)
  else
    let buffer := PyMem_RawMalloc TWO_BYTES in
    let buffer := store buffer 0 (Z.lxor (uchar_at input 0) 0x80) in
    let buffer := for_from 1 (TWO_BYTES - 1)
                    (fun i buf => store buf i (uchar_at input i)) buffer in
    let decoded :=
      if ENDIANNESS =? 0
      then to_signed 16 (Z.lor (load buffer 0) (Z.shiftl (load buffer 1) 8))
      else to_signed 16 (Z.lor (load buffer 1) (Z.shiftl (load buffer 0) 8)) in
    Ok decoded.

Definition from_uint16 (arg : Z) : result (list byte) :=
  match PyArg_Parse_i arg with
  | None => Raise PyExc_TypeError
  | Some input =>
    if (input <? 0) || (input >? 65535) then Raise (PyExc_ValueError expected_range)
    else
      let u_input := to_unsigned 16 input in
      let buffer := PyMem_RawMalloc TWO_BYTES in
      let buffer := put_shifted TWO_BYTES u_input buffer in
      Ok (PyBytes_FromStringAndSize buffer TWO_BYTES)
  end.

Definition to_uint16 (input : list byte) : result Z :=
  let count := length input in
  if negb (count =? TWO_BYTES)%nat then Raise (PyExc_ValueError expected_length)
  else
    let buffer := PyMem_RawMalloc TWO_BYTES in
    let buffer := for_loop TWO_BYTES
                    (fun i buf => store buf i (uchar_at input i)) buffer in
    let decoded :=
      if ENDIANNESS =? 0
      then to_unsigned 16 (Z.lor (load buffer 0) (Z.shiftl (load buffer 1) 8))
      else to_unsigned 16 (Z.lor (load buffer 1) (Z.shiftl (load buffer 0) 8)) in
    Ok decoded.

(** *** 32-bit integers *)

Definition from_int32 (arg : Z) : result (list byte) :=
  match PyArg_Parse_i arg with
  | None => Raise PyExc_TypeError
  | Some input =>
    let buffer := PyMem_RawMalloc FOUR_BYTES in
    let buffer := put_shifted FOUR_BYTES input buffer in
    let buffer := store buffer 0 (Z.lxor (load buffer 0) 0x80) in
    Ok (PyBytes_FromStringAndSize buffer FOUR_BYTES)
  end.

Definition to_int32 (input : list byte) : result Z :=
  let count := length input in
  if negb (count =? FOUR_BYTES)%nat then Raise (PyExc_ValueError expected_length)
  else
    let buffer := PyMem_RawMalloc FOUR_BYTES in
    let buffer := store buffer 0 (Z.lxor (uchar_at input 0) 0x80) in
    let buffer := for_from 1 (FOUR_BYTES - 1)
                    (fun i buf => store buf i (uchar_at input i)) buffer in
    let decoded := or_shifted FOUR_BYTES (to_signed 32) buffer in
    Ok decoded.

Definition from_uint32 (arg : Z) : result (list byte) :=
  match PyArg_Parse_L arg with
  | None => Raise PyExc_TypeError
  | Some input =>
    if (input <? 0) || (input >? 4294967295) then Raise (PyExc_ValueError expected_range)
    else
      let u_input := to_unsigned 32 input in
      let buffer := PyMem_RawMalloc FOUR_BYTES in
      let buffer := put_shifted FOUR_BYTES u_input buffer in
      Ok (PyBytes_FromStringAndSize buffer FOUR_BYTES)
  end.

Definition to_uint32 (input : list byte) : result Z :=
  let count := length input in
  if negb (count =? FOUR_BYTES)%nat then Raise (PyExc_ValueError expected_length)
  else
    let buffer := PyMem_RawMalloc FOUR_BYTES in
    let buffer := for_loop FOUR_BYTES
                    (fun i buf => store buf i (uchar_at input i)) buffer in
    let decoded := or_shifted FOUR_BYTES (to_unsigned 32) buffer in
    Ok decoded.

(** *** 64-bit integers *)

Definition from_int64 (arg : Z) : result (list byte) :=
  match PyArg_Parse_L arg with
  | None => Raise PyExc_TypeError
  | Some input =>
    let buffer := PyMem_RawMalloc EIGHT_BYTES in
    let buffer := put_shifted EIGHT_BYTES input buffer in
    let buffer := store buffer 0 (Z.lxor (load buffer 0) 0x80) in
    Ok (PyBytes_FromStringAndSize buffer EIGHT_BYTES)
  end.

Definition to_int64 (input : list byte) : result Z :=
  let count := length input in
  if negb (count =? EIGHT_BYTES)%nat then Raise (PyExc_ValueError expected_length)
  else
    let buffer := PyMem_RawMalloc EIGHT_BYTES in
    let buffer := store buffer 0 (Z.lxor (uchar_at input 0) 0x80) in
    let buffer := for_from 1 (EIGHT_BYTES - 1)
                    (fun i buf => store buf i (uchar_at input i)) buffer in
    let decoded := or_shifted EIGHT_BYTES (to_signed 64) buffer in
    Ok decoded.

Definition from_uint64 (arg : Z) : result (list byte) :=
  let '(input, PyErr_Occurred) := PyLong_AsUnsignedLongLong arg in
  if (input =? to_unsigned 64 (-1)) && PyErr_Occurred then Raise PyExc_TypeError
  else
    let buffer := PyMem_RawMalloc EIGHT_BYTES in
    let buffer := put_shifted EIGHT_BYTES input buffer in
    Ok (PyBytes_FromStringAndSize buffer EIGHT_BYTES).

Definition to_uint64 (input : list byte) : result Z :=
  let count := length input in
  if negb (count =? EIGHT_BYTES)%nat then Raise (PyExc_ValueError expected_length)
  else
    let buffer := PyMem_RawMalloc EIGHT_BYTES in
    let buffer := for_loop EIGHT_BYTES
                    (fun i buf => store buf i (uchar_at input i)) buffer in
    let decoded := or_shifted EIGHT_BYTES (to_unsigned 64) buffer in
    Ok decoded.

(** *** Floats *)

Definition from_float32 (input : Z) : result (list byte) :=
  let f_bytes := object_bytes host FOUR_BYTES input in
  let buffer := PyMem_RawMalloc FOUR_BYTES in
  let buffer :=
    if float_ge0 binary32 input then
      let buffer := copy_ordered FOUR_BYTES (fun c => c) f_bytes buffer in
      store buffer 0 (Z.lor (load buffer 0) 0x80)
    else
      copy_ordered FOUR_BYTES Z.lnot f_bytes buffer in
  Ok (PyBytes_FromStringAndSize buffer FOUR_BYTES).

Definition to_float32 (input : list byte) : result Z :=
  let count := length input in
  if negb (count =? FOUR_BYTES)%nat then Raise (PyExc_ValueError expected_length)
  else
    let source := map cell_of_byte input in
    let buffer := PyMem_RawMalloc FOUR_BYTES in
    let buffer :=
      if negb (Z.land (uchar_at input 0) 0x80 =? 0) then
        let buffer := copy_ordered FOUR_BYTES (fun c => c) source buffer in
        if ENDIANNESS =? 0
        then store buffer 0 (Z.lxor (load buffer 0) 0x80)
        else store buffer (FOUR_BYTES - 1) (Z.lxor (load buffer (FOUR_BYTES - 1)) 0x80)
      else
        copy_ordered FOUR_BYTES Z.lnot source buffer in
    let f_bytes := for_loop FOUR_BYTES
                     (fun i cells => store cells i (load buffer i))
                     (PyMem_RawMalloc FOUR_BYTES) in
    Ok (object_value host f_bytes).

Definition from_float64 (input : Z) : result (list byte) :=
  let f_bytes := object_bytes host EIGHT_BYTES input in
  let buffer := PyMem_RawMalloc EIGHT_BYTES in
  let buffer :=
    if float_ge0 binary64 input then
      let buffer := copy_ordered EIGHT_BYTES (fun c => c) f_bytes buffer in
      store buffer 0 (Z.lor (load buffer 0) 0x80)
    else
      copy_ordered EIGHT_BYTES Z.lnot f_bytes buffer in
  Ok (PyBytes_FromStringAndSize buffer EIGHT_BYTES).

Definition to_float64 (input : list byte) : result Z :=
  let count := length input in
  if negb (count =? EIGHT_BYTES)%nat then Raise (PyExc_ValueError expected_length)
  else
    let source := map cell_of_byte input in
    let buffer := PyMem_RawMalloc EIGHT_BYTES in
    let buffer :=
      if negb (Z.land (uchar_at input 0) 0x80 =? 0) then
        let buffer := copy_ordered EIGHT_BYTES (fun c => c) source buffer in
        if ENDIANNESS =? 0
        then store buffer 0 (Z.lxor (load buffer 0) 0x80)
        else store buffer (EIGHT_BYTES - 1) (Z.lxor (load buffer (EIGHT_BYTES - 1)) 0x80)
      else
        copy_ordered EIGHT_BYTES Z.lnot source buffer in
    let d_bytes := for_loop EIGHT_BYTES
                     (fun i cells => store cells i (load buffer i))
                     (PyMem_RawMalloc EIGHT_BYTES) in
    Ok (object_value host d_bytes).

End Host.

(** ** The ten domains *)

Inductive domain : Set :=
| int8 | uint8 | int16 | uint16 | int32 | uint32 | int64 | uint64
| float32 | float64.

Inductive domain_class : Set :=
| signed_integer
| unsigned_integer
| ieee_float (f : float_format).

Definition class_of (d : domain) : domain_class :=
  match d with
  | int8 | int16 | int32 | int64 => signed_integer
  | uint8 | uint16 | uint32 | uint64 => unsigned_integer
  | float32 => ieee_float binary32
  | float64 => ieee_float binary64
  end.

Definition width (d : domain) : nat :=
  match d with
  | int8 | uint8 => ONE_BYTE
  | int16 | uint16 => TWO_BYTES
  | int32 | uint32 | float32 => FOUR_BYTES
  | int64 | uint64 | float64 => EIGHT_BYTES
  end.

Definition encode (host : byte_order) (d : domain) : Z -> result (list byte) :=
  match d with
  | int8 => from_int8
  | uint8 => from_uint8
  | int16 => from_int16 host
  | uint16 => from_uint16 host
  | int32 => from_int32 host
  | uint32 => from_uint32 host
  | int64 => from_int64 host
  | uint64 => from_uint64 host
  | float32 => from_float32 host
  | float64 => from_float64 host
  end.

Definition decode (host : byte_order) (d : domain) : list byte -> result Z :=
  match d with
  | int8 => to_int8
  | uint8 => to_uint8
  | int16 => to_int16 host
  | uint16 => to_uint16 host
  | int32 => to_int32 host
  | uint32 => to_uint32 host
  | int64 => to_int64 host
  | uint64 => to_uint64 host
  | float32 => to_float32 host
  | float64 => to_float64 host
  end.

Definition bit_width (d : domain) : Z := 8 * Z.of_nat (width d).

(** The representable values of a domain: the integers of its range, or
    every bit pattern of its width for the floats. *)
Definition lower_bound (d : domain) : Z :=
  match class_of d with
  | signed_integer => - 2 ^ (bit_width d - 1)
  | _ => 0
  end.

Definition upper_bound (d : domain) : Z :=
  match class_of d with
  | signed_integer => 2 ^ (bit_width d - 1) - 1
  | _ => 2 ^ bit_width d - 1
  end.

Definition representable (d : domain) (x : Z) : Prop :=
  lower_bound d <= x <= upper_bound d.

(** The natural ordering and equality of a domain. *)
Definition domain_lt (d : domain) (a b : Z) : Prop :=
  match class_of d with
  | ieee_float f => float_lt f a b = true
  | _ => a < b
  end.


Definition domain_is_nan (d : domain) (x : Z) : bool :=
  match class_of d with
  | ieee_float f => is_nan f x
  | _ => false
  end.

(** Unsigned lexicographic comparison of byte strings. *)
Fixpoint lex_lt (a b : list byte) : bool :=
  match a, b with
  | _, [] => false
  | [], _ :: _ => true
  | x :: a', y :: b' =>
    if cell_of_byte x <? cell_of_byte y then true
    else if cell_of_byte y <? cell_of_byte x then false
    else lex_lt a' b'
  end.

(** * Vocabulary of the properties

    Nothing below is part of the program: these are the notions in which the
    properties are stated, and the closed forms that the entry points are
    proved to compute. *)

(** ** Cells and byte strings *)

Definition cell (c : Z) : Prop := 0 <= c < 256.

(** The value of a byte string read as one big-endian number. *)
Definition bytes_value (bs : list byte) : Z := be_value (map cell_of_byte bs).

(** The weight of the most significant bit of an [n]-byte string. *)
Definition msb_weight (n : nat) : Z := 128 * 256 ^ Z.of_nat (n - 1).

(** [^ 0x80] and [| 0x80] on byte 0, and [~] on one byte stored into an
    8-bit cell. *)
Definition flip_msb (cells : list Z) : list Z :=
  match cells with
  | [] => []
  | c :: rest => Z.lxor c 0x80 :: rest
  end.

Definition set_msb (cells : list Z) : list Z :=
  match cells with
  | [] => []
  | c :: rest => Z.lor c 0x80 :: rest
  end.

Definition complement (c : Z) : Z := Z.lnot c mod 256.

(** ** Closed forms of the entry points *)

(** The order in which the shift loops of the integer functions lay the
    big-endian cells out: as they are when [ENDIANNESS] is 1, reversed when
    it is 0. *)
Definition shift_order (h : byte_order) (cells : list Z) : list Z :=
  match h with
  | LittleEndian => cells
  | BigEndian => rev cells
  end.

Definition is_integer (d : domain) : bool :=
  match class_of d with
  | ieee_float _ => false
  | _ => true
  end.

Definition int_wire (h : byte_order) (d : domain) (v : Z) : list Z :=
  match class_of d with
  | signed_integer => flip_msb (shift_order h (be_cells (width d) v))
  | _ => shift_order h (be_cells (width d) v)
  end.

Definition int_unwire (h : byte_order) (d : domain) (cells : list Z) : Z :=
  match class_of d with
  | signed_integer =>
    to_signed (bit_width d) (be_value (shift_order h (flip_msb cells)))
  | _ => be_value (shift_order h cells)
  end.

Definition float_wire (f : float_format) (n : nat) (x : Z) : list Z :=
  if float_ge0 f x then set_msb (be_cells n x)
  else map complement (be_cells n x).

Definition float_unwire (cells : list Z) : Z :=
  if 128 <=? hd 0 cells then be_value (flip_msb cells)
  else be_value (map complement cells).

Definition wire (h : byte_order) (d : domain) (x : Z) : list Z :=
  match class_of d with
  | ieee_float f => float_wire f (width d) x
  | _ => int_wire h d x
  end.

Definition unwire (h : byte_order) (d : domain) (cells : list Z) : Z :=
  match class_of d with
  | ieee_float _ => float_unwire cells
  | _ => int_unwire h d cells
  end.

(** What an integer encoder answers to an integer outside its domain.
    [checked_after_parse d] is [Some bits] when the function of [d] tests
    the range itself, on an argument parsed into a signed C integer of
    [bits] bits; the other integer functions leave the range to the
    parser. *)
Definition checked_after_parse (d : domain) : option Z :=
  match d with
  | int8 | uint8 | uint16 => Some 32
  | uint32 => Some 64
  | _ => None
  end.

Definition rejection (d : domain) (x : Z) : exn :=
  match checked_after_parse d with
  | Some bits =>
    if (- 2 ^ (bits - 1) <=? x) && (x <=? 2 ^ (bits - 1) - 1)
    then RangeError else TypeMismatch
  | None => TypeMismatch
  end.

(** ** Bit patterns of floats *)

Definition standard (f : float_format) : Prop := f = binary32 \/ f = binary64.

(** The weight of the sign bit, the sign, and the exponent and fraction
    fields read as one number. *)
Definition sign_weight (f : float_format) : Z := 2 ^ (exp_bits f + mant_bits f).

Definition sign_of (f : float_format) (x : Z) : bool := sign_weight f <=? x.

Definition magnitude (f : float_format) (x : Z) : Z :=
  if sign_of f x then x - sign_weight f else x.

(** The magnitude of the infinities; the NaNs lie above it. *)
Definition infinity_code (f : float_format) : Z :=
  (2 ^ exp_bits f - 1) * 2 ^ mant_bits f.

Definition min_exponent (f : float_format) : Z :=
  1 - (2 ^ (exp_bits f - 1) - 1) - mant_bits f.

(** The signed magnitude of a pattern: its place in the numeric order. *)
Definition ordinal (f : float_format) (x : Z) : Z :=
  if sign_of f x then - magnitude f x else magnitude f x.

(** How the value denoted by a pattern that is not a NaN depends on its
    sign [s] and magnitude [g]. *)
Inductive shape (f : float_format) (s : bool) (g : Z) : spec_float -> Prop :=
| shape_zero : g = 0 -> shape f s g (S754_zero s)
| shape_infinity : g = infinity_code f -> shape f s g (S754_infinity s)
| shape_finite (p : positive) (ex : Z) :
    min_exponent f <= ex ->
    Zpos p < 2 * 2 ^ mant_bits f ->
    (min_exponent f < ex -> 2 ^ mant_bits f <= Zpos p) ->
    g = (ex - min_exponent f) * 2 ^ mant_bits f + Zpos p ->
    0 < g < infinity_code f ->
    shape f s g (S754_finite s p ex).

(** ** Sort keys *)

(** The number whose big-endian bytes the float encoders emit, and the
    pattern the float decoders rebuild from it. *)
Definition float_key (f : float_format) (x : Z) : Z :=
  if float_ge0 f x
  then (if x <? sign_weight f then x + sign_weight f else x)
  else 2 * sign_weight f - 1 - x.

Definition float_unkey (f : float_format) (k : Z) : Z :=
  if k <? sign_weight f then 2 * sign_weight f - 1 - k else k - sign_weight f.

Definition sort_key (d : domain) (x : Z) : Z :=
  match class_of d with
  | signed_integer => x + msb_weight (width d)
  | unsigned_integer => x
  | ieee_float f => float_key f x
  end.

(** The hosts and domains on which the integer shift loops produce
    big-endian output: a little-endian host, or a single byte. The float
    functions copy the bytes of the object in memory and are right on both
    hosts. *)
Definition big_endian_output (h : byte_order) (d : domain) : Prop :=
  h = LittleEndian \/ is_integer d = false \/ width d = 1%nat.

(** The unsigned domain of the same width. *)
Definition unsigned_of (d : domain) : domain :=
  match d with
  | int8 => uint8
  | int16 => uint16
  | int32 => uint32
  | int64 => uint64
  | _ => d
  end.

(** * Properties *)

(** ** Bytes *)

Lemma cell_of_byte_range (b : byte) : cell (cell_of_byte b).
Proof.
  unfold cell, cell_of_byte.
  pose proof (Byte.to_N_bounded b) as Hb.
  lia.
Qed.

Lemma byte_of_cell_of_byte (b : byte) : byte_of_cell (cell_of_byte b) = b.
Proof.
  unfold byte_of_cell.
  rewrite Z.mod_small by apply cell_of_byte_range.
  unfold cell_of_byte. rewrite N2Z.id, Byte.of_to_N. reflexivity.
Qed.

Lemma cell_of_byte_of_cell (c : Z) : cell_of_byte (byte_of_cell c) = c mod 256.
Proof.
  unfold byte_of_cell, cell_of_byte.
  assert (Hr : 0 <= c mod 256 < 256) by (apply Z.mod_pos_bound; lia).
  destruct (Byte.of_N (Z.to_N (c mod 256))) as [b|] eqn:E.
  - apply Byte.to_of_N in E. rewrite E. lia.
  - apply Byte.of_N_None_iff in E. lia.
Qed.

Lemma cell_of_byte_of_small (c : Z) : cell c -> cell_of_byte (byte_of_cell c) = c.
Proof. intros H. rewrite cell_of_byte_of_cell. apply Z.mod_small, H. Qed.

Lemma cell_of_byte_inj (a b : byte) : cell_of_byte a = cell_of_byte b -> a = b.
Proof.
  intros H. rewrite <- (byte_of_cell_of_byte a), <- (byte_of_cell_of_byte b).
  now rewrite H.
Qed.

Lemma map_cell_of_byte_range (bs : list byte) : Forall cell (map cell_of_byte bs).
Proof. induction bs; constructor; auto using cell_of_byte_range. Qed.

Lemma map_byte_of_cell_of_byte (bs : list byte) :
  map byte_of_cell (map cell_of_byte bs) = bs.
Proof.
  induction bs as [|b bs IH]; simpl; [reflexivity|].
  now rewrite byte_of_cell_of_byte, IH.
Qed.

Lemma map_cell_of_byte_of_cell (cells : list Z) :
  Forall cell cells -> map cell_of_byte (map byte_of_cell cells) = cells.
Proof.
  induction 1 as [|c cells Hc _ IH]; simpl; [reflexivity|].
  now rewrite cell_of_byte_of_small, IH.
Qed.

(** ** Big-endian cells and their value *)

Lemma pow256_pos (n : nat) : 0 < 256 ^ Z.of_nat n.
Proof. apply Z.pow_pos_nonneg; lia. Qed.

Lemma pow256_succ (n : nat) : 256 ^ Z.of_nat (S n) = 256 * 256 ^ Z.of_nat n.
Proof. rewrite Nat2Z.inj_succ, Z.pow_succ_r by lia. reflexivity. Qed.

Lemma byte_mask (x : Z) (k : nat) :
  Z.land (Z.shiftr x (8 * Z.of_nat k)) 0xff = (x / 256 ^ Z.of_nat k) mod 256.
Proof.
  change 0xff with (Z.ones 8).
  rewrite Z.land_ones, Z.shiftr_div_pow2 by lia.
  rewrite Z.pow_mul_r by lia. reflexivity.
Qed.

Lemma be_cells_length (n : nat) (x : Z) : length (be_cells n x) = n.
Proof. induction n; simpl; congruence. Qed.

Lemma be_cells_range (n : nat) (x : Z) : Forall cell (be_cells n x).
Proof.
  induction n as [|k IH]; cbn [be_cells]; constructor; [|exact IH].
  rewrite byte_mask. apply Z.mod_pos_bound. lia.
Qed.

Lemma be_value_be_cells (n : nat) (x : Z) :
  be_value (be_cells n x) = x mod 256 ^ Z.of_nat n.
Proof.
  induction n as [|k IH].
  - simpl. now rewrite Z.mod_1_r.
  - cbn [be_cells be_value]. rewrite IH, be_cells_length, byte_mask, pow256_succ.
    pose proof (pow256_pos k) as Hp.
    rewrite (Z.mul_comm 256), Z.rem_mul_r by lia. lia.
Qed.

Lemma be_value_range (cells : list Z) :
  Forall cell cells -> 0 <= be_value cells < 256 ^ Z.of_nat (length cells).
Proof.
  induction 1 as [|c cells Hc _ IH].
  - simpl. lia.
  - cbn [be_value length]. rewrite pow256_succ.
    unfold cell in Hc. pose proof (pow256_pos (length cells)). nia.
Qed.

Lemma be_cells_above (n m : nat) (c x : Z) :
  (n <= m)%nat -> be_cells n (c * 256 ^ Z.of_nat m + x) = be_cells n x.
Proof.
  induction n as [|k IH]; intros Hle; [reflexivity|].
  cbn [be_cells]. rewrite IH by lia. f_equal.
  rewrite !byte_mask.
  replace (Z.of_nat m) with (Z.of_nat (S (m - S k)) + Z.of_nat k) by lia.
  rewrite Z.pow_add_r, pow256_succ by lia.
  pose proof (pow256_pos k).
  rewrite Z.mul_assoc, Z.add_comm, Z.div_add by lia.
  replace (c * (256 * 256 ^ Z.of_nat (m - S k)))
    with ((c * 256 ^ Z.of_nat (m - S k)) * 256) by ring.
  apply Z_mod_plus_full.
Qed.

Lemma be_cells_mod (n : nat) (x : Z) :
  be_cells n (x mod 256 ^ Z.of_nat n) = be_cells n x.
Proof.
  pose proof (pow256_pos n).
  rewrite (Z.div_mod x (256 ^ Z.of_nat n)) at 2 by lia.
  rewrite (Z.mul_comm (256 ^ Z.of_nat n)).
  symmetry. apply be_cells_above. lia.
Qed.

Lemma be_cells_be_value (cells : list Z) :
  Forall cell cells -> be_cells (length cells) (be_value cells) = cells.
Proof.
  induction 1 as [|c cells Hc Hcells IH]; [reflexivity|].
  cbn [length be_cells be_value].
  rewrite be_cells_above, IH by lia. f_equal.
  rewrite byte_mask.
  pose proof (be_value_range cells Hcells).
  rewrite Z.div_add_l, Z.div_small, Z.add_0_r by lia.
  apply Z.mod_small. exact Hc.
Qed.

Lemma be_value_inj (a b : list Z) :
  Forall cell a -> Forall cell b -> length a = length b ->
  be_value a = be_value b -> a = b.
Proof.
  intros Ha Hb Hlen Hv.
  rewrite <- (be_cells_be_value a Ha), <- (be_cells_be_value b Hb).
  now rewrite Hlen, Hv.
Qed.

Lemma bytes_value_range (bs : list byte) :
  0 <= bytes_value bs < 256 ^ Z.of_nat (length bs).
Proof.
  unfold bytes_value.
  pose proof (be_value_range _ (map_cell_of_byte_range bs)) as H.
  now rewrite length_map in H.
Qed.

(** Lexicographic order on strings of one length is the order of values. *)
Lemma lex_lt_bytes_value (a b : list byte) :
  length a = length b ->
  lex_lt a b = true <-> bytes_value a < bytes_value b.
Proof.
  revert b. induction a as [|x a IH]; intros [|y b] Hlen; try discriminate.
  - simpl. split; [discriminate | unfold bytes_value; simpl; lia].
  - injection Hlen as Hlen. specialize (IH b Hlen).
    unfold bytes_value in *. cbn [lex_lt map be_value].
    rewrite !length_map, <- Hlen.
    pose proof (cell_of_byte_range x) as Hx.
    pose proof (cell_of_byte_range y) as Hy.
    pose proof (bytes_value_range a) as Ha.
    pose proof (bytes_value_range b) as Hb.
    unfold bytes_value in Ha, Hb. rewrite <- Hlen in Hb.
    pose proof (pow256_pos (length a)) as Hp.
    unfold cell in *.
    destruct (Z.ltb_spec (cell_of_byte x) (cell_of_byte y)).
    + split; [intros _; nia | reflexivity].
    + destruct (Z.ltb_spec (cell_of_byte y) (cell_of_byte x)).
      * split; [discriminate | intros; nia].
      * assert (E : cell_of_byte x = cell_of_byte y) by lia.
        rewrite E, IH. lia.
Qed.

(** ** Bit operations on one cell *)

Lemma cell_cases (P : Z -> bool) :
  forallb P (map Z.of_nat (seq 0 256)) = true ->
  forall c, cell c -> P c = true.
Proof.
  intros H c Hc. rewrite forallb_forall in H. apply H.
  rewrite <- (Z2Nat.id c) by apply Hc.
  apply in_map, in_seq. unfold cell in Hc. lia.
Qed.

Lemma xor_msb (c : Z) :
  cell c -> Z.lxor c 0x80 = if c <? 128 then c + 128 else c - 128.
Proof.
  intros Hc. apply Z.eqb_eq.
  revert c Hc. apply cell_cases. vm_compute. reflexivity.
Qed.

Lemma or_msb (c : Z) :
  cell c -> Z.lor c 0x80 = if c <? 128 then c + 128 else c.
Proof.
  intros Hc. apply Z.eqb_eq.
  revert c Hc. apply cell_cases. vm_compute. reflexivity.
Qed.

Lemma and_msb (c : Z) :
  cell c -> (Z.land c 0x80 =? 0) = (c <? 128).
Proof.
  intros Hc. apply Bool.eqb_prop.
  revert c Hc. apply cell_cases. vm_compute. reflexivity.
Qed.

Lemma xor_msb_cell (c : Z) : cell c -> cell (Z.lxor c 0x80).
Proof.
  intros Hc. rewrite xor_msb by assumption. unfold cell in *.
  destruct (Z.ltb_spec c 128); lia.
Qed.

Lemma or_msb_cell (c : Z) : cell c -> cell (Z.lor c 0x80).
Proof.
  intros Hc. rewrite or_msb by assumption. unfold cell in *.
  destruct (Z.ltb_spec c 128); lia.
Qed.

Lemma xor_msb_twice (c : Z) : Z.lxor (Z.lxor c 0x80) 0x80 = c.
Proof. now rewrite Z.lxor_assoc, Z.lxor_nilpotent, Z.lxor_0_r. Qed.

Lemma lnot_mod (c : Z) : Z.lnot c mod 256 = (255 - c) mod 256.
Proof.
  unfold Z.lnot. rewrite <- Z.sub_1_r.
  replace (- c - 1) with (255 - c + (-1) * 256) by ring.
  apply Z_mod_plus_full.
Qed.

Lemma land_mask_cell (x : Z) : cell (Z.land x 0xff).
Proof.
  change 0xff with (Z.ones 8). rewrite Z.land_ones by lia.
  apply Z.mod_pos_bound. lia.
Qed.

Lemma byte_of_cell_mod (c : Z) : byte_of_cell (c mod 256) = byte_of_cell c.
Proof. unfold byte_of_cell. now rewrite Z.mod_mod by lia. Qed.

(** ** Conversions between signed and unsigned *)

Lemma to_unsigned_small (bits x : Z) :
  0 <= x < 2 ^ bits -> to_unsigned bits x = x.
Proof. intros H. apply Z.mod_small, H. Qed.

Lemma to_signed_small (bits x : Z) :
  0 < bits -> - 2 ^ (bits - 1) <= x < 2 ^ (bits - 1) -> to_signed bits x = x.
Proof.
  intros Hb H. unfold to_signed.
  assert (E : 2 ^ bits = 2 * 2 ^ (bits - 1)).
  { rewrite <- Z.pow_succ_r by lia. f_equal. lia. }
  rewrite Z.mod_small by lia. ring.
Qed.

Lemma to_signed_range (bits x : Z) :
  0 < bits -> - 2 ^ (bits - 1) <= to_signed bits x <= 2 ^ (bits - 1) - 1.
Proof.
  intros Hb. unfold to_signed.
  assert (E : 2 ^ bits = 2 * 2 ^ (bits - 1)).
  { rewrite <- Z.pow_succ_r by lia. f_equal. lia. }
  assert (0 < 2 ^ (bits - 1)) by (apply Z.pow_pos_nonneg; lia).
  pose proof (Z.mod_pos_bound (x + 2 ^ (bits - 1)) (2 ^ bits)). lia.
Qed.

Lemma to_signed_mod (bits x : Z) :
  0 < bits -> to_signed bits x mod 2 ^ bits = x mod 2 ^ bits.
Proof.
  intros Hb. unfold to_signed.
  assert (0 < 2 ^ bits) by (apply Z.pow_pos_nonneg; lia).
  rewrite Zminus_mod_idemp_l. f_equal. ring.
Qed.

(** A cell shifted into the top byte of a signed type. *)
Lemma to_signed_top (bits k c : Z) :
  bits = k + 8 -> 0 <= k -> cell c ->
  to_signed bits (c * 2 ^ k) = to_signed 8 c * 2 ^ k.
Proof.
  intros -> Hk Hc. unfold to_signed.
  replace (k + 8 - 1) with (7 + k) by ring.
  replace (k + 8) with (8 + k) by ring.
  rewrite !Z.pow_add_r by lia.
  replace (c * 2 ^ k + 2 ^ 7 * 2 ^ k) with ((c + 2 ^ 7) * 2 ^ k) by ring.
  assert (0 < 2 ^ k) by (apply Z.pow_pos_nonneg; lia).
  rewrite Z.mul_mod_distr_r by lia.
  change (8 - 1) with 7. ring.
Qed.

Lemma to_signed_split (bits k c r : Z) :
  bits = k + 8 -> 0 <= k -> cell c -> 0 <= r < 2 ^ k ->
  to_signed bits (c * 2 ^ k + r) = to_signed 8 c * 2 ^ k + r.
Proof.
  intros Hb Hk Hc Hr.
  rewrite <- (to_signed_top bits k c Hb Hk Hc).
  subst bits. unfold to_signed.
  replace (k + 8 - 1) with (7 + k) by ring.
  replace (k + 8) with (8 + k) by ring.
  rewrite !Z.pow_add_r by lia.
  assert (0 < 2 ^ k) by (apply Z.pow_pos_nonneg; lia).
  unfold cell in Hc. change (2 ^ 7) with 128. change (2 ^ 8) with 256.
  destruct (Z.ltb_spec c 128).
  - rewrite !Z.mod_small by nia. ring.
  - replace (c * 2 ^ k + r + 128 * 2 ^ k)
      with (c * 2 ^ k + r - 128 * 2 ^ k + 1 * (256 * 2 ^ k)) by ring.
    replace (c * 2 ^ k + 128 * 2 ^ k)
      with (c * 2 ^ k - 128 * 2 ^ k + 1 * (256 * 2 ^ k)) by ring.
    rewrite !Z_mod_plus_full, !Z.mod_small by nia. ring.
Qed.

(** Bitwise or of two numbers with no common bit is their sum. *)
Lemma lor_disjoint (a m k : Z) :
  0 <= k -> 0 <= a < 2 ^ k -> Z.lor a (m * 2 ^ k) = a + m * 2 ^ k.
Proof.
  intros Hk Ha.
  assert (Hz : Z.land a (m * 2 ^ k) = 0).
  { apply Z.bits_inj'. intros n Hn.
    rewrite Z.land_spec, Z.bits_0.
    destruct (Z.lt_ge_cases n k).
    - rewrite Z.mul_pow2_bits_low by lia. apply andb_false_r.
    - rewrite <- (Z.mod_small a (2 ^ k)) by lia.
      rewrite Z.mod_pow2_bits_high by lia. reflexivity. }
  rewrite <- Z.lxor_lor by assumption.
  symmetry. apply Z.add_nocarry_lxor. assumption.
Qed.

(** ** What each entry point computes

    Every entry point is unrolled, on either host, into its closed form: the
    cells of the big-endian representation, in the order of the shift loops,
    flipped, set or complemented. *)

Lemma parse_signed_in (bits arg : Z) :
  - 2 ^ (bits - 1) <= arg <= 2 ^ (bits - 1) - 1 -> parse_signed bits arg = Some arg.
Proof.
  intros H. unfold parse_signed.
  destruct (Z.leb_spec (- 2 ^ (bits - 1)) arg); [|lia].
  destruct (Z.leb_spec arg (2 ^ (bits - 1) - 1)); [reflexivity|lia].
Qed.

Lemma parse_signed_out (bits arg : Z) :
  ~ (- 2 ^ (bits - 1) <= arg <= 2 ^ (bits - 1) - 1) -> parse_signed bits arg = None.
Proof.
  intros H. unfold parse_signed.
  destruct (Z.leb_spec (- 2 ^ (bits - 1)) arg);
    destruct (Z.leb_spec arg (2 ^ (bits - 1) - 1)); try reflexivity; lia.
Qed.

Lemma ENDIANNESS_big : ENDIANNESS BigEndian = 0.
Proof. reflexivity. Qed.

Lemma ENDIANNESS_little : ENDIANNESS LittleEndian = 1.
Proof. reflexivity. Qed.

Ltac unroll :=
  cbv [put_shifted or_shifted copy_ordered for_loop for_from store load nth
       PyMem_RawMalloc repeat PyBytes_FromStringAndSize firstn map uchar_at
       ONE_BYTE TWO_BYTES FOUR_BYTES EIGHT_BYTES
       Nat.sub Z.of_nat Pos.of_succ_nat Pos.succ Z.mul Pos.mul Pos.add
       be_cells rev app flip_msb set_msb shift_order width class_of
       int_wire int_unwire float_wire float_unwire
       object_bytes object_value hd length Nat.eqb negb bit_width].

Ltac bounds H :=
  match type of H with
  | representable ?d ?v =>
    let l := eval vm_compute in (lower_bound d) in
    let u := eval vm_compute in (upper_bound d) in
    change (l <= v <= u) in H
  end.

Ltac explicit_bytes bs H :=
  repeat (let b := fresh "b" in destruct bs as [|b bs]; [discriminate H|]);
  destruct bs; [|discriminate H]; clear H.

Ltac name_cells :=
  repeat match goal with
  | |- context [cell_of_byte ?b] =>
    let c := fresh "c" in
    pose proof (cell_of_byte_range b);
    generalize dependent (cell_of_byte b); intros c ?
  end.

Ltac name_flipped :=
  repeat match goal with
  | |- context [Z.lxor ?c 128] =>
    pose proof (xor_msb_cell c ltac:(assumption));
    generalize dependent (Z.lxor c 128); intros
  end.

Ltac small_mods :=
  rewrite ?Zmod_mod;
  repeat match goal with
  | |- context [?c mod 256] => rewrite (Z.mod_small c 256) by lia
  end.

Ltac or_chain :=
  rewrite ?Z.shiftl_mul_pow2 by lia;
  repeat match goal with
  | |- context [to_unsigned ?b (?c * 2 ^ ?k)] =>
    rewrite (to_unsigned_small b (c * 2 ^ k)) by lia
  | |- context [to_signed ?b (?c * 2 ^ ?k)] =>
    first [ rewrite (to_signed_small b (c * 2 ^ k)) by lia
          | rewrite (to_signed_top b k c) by (reflexivity || lia || assumption) ]
  end;
  rewrite ?Z.lor_0_l;
  repeat match goal with
  | |- context [Z.lor ?a (?m * 2 ^ ?k)] => rewrite (lor_disjoint a m k) by lia
  end.

Lemma land_255 (x : Z) : Z.land x 255 = x mod 256.
Proof. change 255 with (Z.ones 8). now rewrite Z.land_ones by lia. Qed.

Lemma range_check_in (lo hi v : Z) :
  lo <= v <= hi -> (v <? lo) || (v >? hi) = false.
Proof.
  intros H. rewrite Z.gtb_ltb.
  destruct (Z.ltb_spec v lo), (Z.ltb_spec hi v); simpl; lia.
Qed.

Lemma range_check_out (lo hi v : Z) :
  ~ (lo <= v <= hi) -> (v <? lo) || (v >? hi) = true.
Proof.
  intros H. rewrite Z.gtb_ltb.
  destruct (Z.ltb_spec v lo), (Z.ltb_spec hi v); simpl; lia.
Qed.

Lemma from_uint64_in (h : byte_order) (v : Z) :
  0 <= v <= 2 ^ 64 - 1 ->
  from_uint64 h v =
  Ok (PyBytes_FromStringAndSize
        (put_shifted h EIGHT_BYTES v (PyMem_RawMalloc EIGHT_BYTES)) EIGHT_BYTES).
Proof.
  intros H. unfold from_uint64, PyLong_AsUnsignedLongLong.
  destruct (Z.leb_spec 0 v); [|lia].
  destruct (Z.leb_spec v (2 ^ 64 - 1)); [|lia].
  cbn [andb]. now rewrite andb_false_r.
Qed.

Lemma from_uint64_out (h : byte_order) (v : Z) :
  ~ (0 <= v <= 2 ^ 64 - 1) -> from_uint64 h v = Raise PyExc_TypeError.
Proof.
  intros H. unfold from_uint64, PyLong_AsUnsignedLongLong.
  destruct (Z.leb_spec 0 v); [destruct (Z.leb_spec v (2 ^ 64 - 1)); [lia|]|];
    reflexivity.
Qed.

Lemma be_value_1 (a : Z) : be_value [a] = a.
Proof. cbn [be_value length]. change (256 ^ Z.of_nat 0) with 1. ring. Qed.

Lemma be_value_2 (a b : Z) : be_value [a; b] = a * 2 ^ 8 + b.
Proof.
  cbn [be_value length].
  change (256 ^ Z.of_nat 1) with (2 ^ 8). change (256 ^ Z.of_nat 0) with 1. ring.
Qed.

Lemma be_value_4 (a b c d : Z) :
  be_value [a; b; c; d] = a * 2 ^ 24 + (b * 2 ^ 16 + c * 2 ^ 8 + d).
Proof.
  cbn [be_value length].
  change (256 ^ Z.of_nat 3) with (2 ^ 24). change (256 ^ Z.of_nat 2) with (2 ^ 16).
  change (256 ^ Z.of_nat 1) with (2 ^ 8). change (256 ^ Z.of_nat 0) with 1. ring.
Qed.

Lemma be_value_8 (a b c d e f g h : Z) :
  be_value [a; b; c; d; e; f; g; h] =
  a * 2 ^ 56 +
  (b * 2 ^ 48 + c * 2 ^ 40 + d * 2 ^ 32 + e * 2 ^ 24 + f * 2 ^ 16 + g * 2 ^ 8 + h).
Proof.
  cbn [be_value length].
  change (256 ^ Z.of_nat 7) with (2 ^ 56). change (256 ^ Z.of_nat 6) with (2 ^ 48).
  change (256 ^ Z.of_nat 5) with (2 ^ 40). change (256 ^ Z.of_nat 4) with (2 ^ 32).
  change (256 ^ Z.of_nat 3) with (2 ^ 24). change (256 ^ Z.of_nat 2) with (2 ^ 16).
  change (256 ^ Z.of_nat 1) with (2 ^ 8). change (256 ^ Z.of_nat 0) with 1. ring.
Qed.

(** The integer encoders, on either host. *)
Lemma encode_int_closed (h : byte_order) (d : domain) (v : Z) :
  is_integer d = true -> representable d v ->
  encode h d v = Ok (map byte_of_cell (int_wire h d v)).
Proof.
  intros Hd Hv. destruct d; try discriminate Hd; bounds Hv; destruct h;
    cbv [encode from_int8 from_uint8 from_int16 from_uint16 from_int32
         from_uint32 from_int64 PyArg_Parse_h PyArg_Parse_i PyArg_Parse_L];
    rewrite ?from_uint64_in by lia;
    rewrite ?parse_signed_in by lia;
    rewrite ?range_check_in by lia;
    rewrite ?to_unsigned_small by lia;
    unfold put_shifted; rewrite ?ENDIANNESS_big, ?ENDIANNESS_little; cbv [Z.eqb];
    unroll;
    rewrite ?Z.shiftr_0_r, ?land_255, ?Zmod_mod, ?byte_of_cell_mod; reflexivity.
Qed.

(** The integer decoders, on either host. *)
Lemma decode_int_closed (h : byte_order) (d : domain) (bs : list byte) :
  is_integer d = true -> length bs = width d ->
  decode h d bs = Ok (int_unwire h d (map cell_of_byte bs)).
Proof.
  intros Hd Hlen.
  destruct d; try discriminate Hd;
    cbv [width ONE_BYTE TWO_BYTES FOUR_BYTES EIGHT_BYTES] in Hlen;
    explicit_bytes bs Hlen; destruct h;
    cbv [decode to_int8 to_uint8 to_int16 to_uint16 to_int32 to_uint32
         to_int64 to_uint64];
    unfold or_shifted; rewrite ?ENDIANNESS_big, ?ENDIANNESS_little; cbv [Z.eqb];
    unroll; name_cells; name_flipped; unfold cell in *;
    rewrite ?Z.mod_small by lia;
    rewrite ?be_value_1, ?be_value_2, ?be_value_4, ?be_value_8;
    or_chain; f_equal;
    rewrite ?to_unsigned_small by lia;
    first
      [ solve [ ring | f_equal; ring ]
      | match goal with
        | |- _ = to_signed ?b (?c * 2 ^ ?k + ?r) =>
          rewrite (to_signed_split b k c r) by (reflexivity || (unfold cell; lia))
        end; ring ].
Qed.

(** The float encoders: the host's byte order cancels out. *)
Lemma encode_float_closed (h : byte_order) (d : domain) (f : float_format) (x : Z) :
  class_of d = ieee_float f ->
  encode h d x = Ok (map byte_of_cell (float_wire f (width d) x)).
Proof.
  intros Hd.
  destruct d; try discriminate Hd; injection Hd as <-; destruct h;
    cbv [encode from_float32 from_float64 float_wire];
    match goal with |- context [float_ge0 ?f ?x] => destruct (float_ge0 f x) end;
    unfold copy_ordered; rewrite ?ENDIANNESS_big, ?ENDIANNESS_little; cbv [Z.eqb];
    unroll; unfold complement;
    rewrite ?(fun x => Z.mod_small _ _ (land_mask_cell x)), ?byte_of_cell_mod;
    reflexivity.
Qed.

(** The float decoders. *)
Lemma decode_float_closed (h : byte_order) (d : domain) (bs : list byte) :
  is_integer d = false -> length bs = width d ->
  decode h d bs = Ok (float_unwire (map cell_of_byte bs)).
Proof.
  intros Hd Hlen.
  destruct d; try discriminate Hd;
    cbv [width ONE_BYTE TWO_BYTES FOUR_BYTES EIGHT_BYTES] in Hlen;
    explicit_bytes bs Hlen; destruct h;
    cbv [decode to_float32 to_float64];
    unfold copy_ordered; rewrite ?ENDIANNESS_big, ?ENDIANNESS_little;
    change (0 =? 0) with true; change (1 =? 0) with false;
    unroll; name_cells;
    rewrite and_msb by assumption;
    match goal with
    | |- context [?c <? 128] =>
      destruct (Z.ltb_spec c 128); destruct (Z.leb_spec 128 c); try lia
    end;
    unfold cell, complement in *; rewrite ?lnot_mod; small_mods;
    name_flipped; unfold cell in *; small_mods; reflexivity.
Qed.

(** ** The cell operations of the wire format *)

Lemma shift_order_involutive (h : byte_order) (cells : list Z) :
  shift_order h (shift_order h cells) = cells.
Proof. destruct h; simpl; [apply rev_involutive | reflexivity]. Qed.

Lemma shift_order_length (h : byte_order) (cells : list Z) :
  length (shift_order h cells) = length cells.
Proof. destruct h; simpl; [apply length_rev | reflexivity]. Qed.

Lemma shift_order_range (h : byte_order) (cells : list Z) :
  Forall cell cells -> Forall cell (shift_order h cells).
Proof. destruct h; simpl; [apply Forall_rev | trivial]. Qed.

Lemma flip_msb_involutive (cells : list Z) : flip_msb (flip_msb cells) = cells.
Proof. destruct cells; simpl; [reflexivity|]. now rewrite xor_msb_twice. Qed.

Lemma flip_msb_length (cells : list Z) : length (flip_msb cells) = length cells.
Proof. destruct cells; reflexivity. Qed.

Lemma flip_msb_range (cells : list Z) :
  Forall cell cells -> Forall cell (flip_msb cells).
Proof.
  destruct 1; simpl; constructor; auto using xor_msb_cell.
Qed.

Lemma set_msb_length (cells : list Z) : length (set_msb cells) = length cells.
Proof. destruct cells; reflexivity. Qed.

Lemma set_msb_range (cells : list Z) :
  Forall cell cells -> Forall cell (set_msb cells).
Proof.
  destruct 1; simpl; constructor; auto using or_msb_cell.
Qed.

Lemma complement_cell (c : Z) : cell c -> complement c = 255 - c.
Proof.
  intros Hc. unfold complement. rewrite lnot_mod.
  apply Z.mod_small. unfold cell in Hc. lia.
Qed.

Lemma complement_range (cells : list Z) : Forall cell (map complement cells).
Proof.
  induction cells as [|c cells IH]; simpl; constructor; [|exact IH].
  apply Z.mod_pos_bound. lia.
Qed.

Lemma complement_involutive (cells : list Z) :
  Forall cell cells -> map complement (map complement cells) = cells.
Proof.
  induction 1 as [|c cells Hc _ IH]; simpl; [reflexivity|].
  rewrite IH. f_equal.
  rewrite (complement_cell c Hc), complement_cell; unfold cell in *; lia.
Qed.

Lemma msb_weight_double (n : nat) :
  (0 < n)%nat -> 2 * msb_weight n = 256 ^ Z.of_nat n.
Proof.
  intros Hn. unfold msb_weight.
  replace n with (S (n - 1)) at 2 by lia. rewrite pow256_succ. ring.
Qed.

Lemma msb_weight_pos (n : nat) : 0 < msb_weight n.
Proof. unfold msb_weight. pose proof (pow256_pos (n - 1)). lia. Qed.

Lemma hd_lt_msb (cells : list Z) :
  Forall cell cells -> cells <> [] ->
  (hd 0 cells <? 128) = (be_value cells <? msb_weight (length cells)).
Proof.
  intros Hc Hne. destruct Hc as [|c rest Hc Hrest]; [congruence|].
  cbn [hd be_value length]. unfold msb_weight.
  replace (S (length rest) - 1)%nat with (length rest) by lia.
  pose proof (be_value_range rest Hrest).
  destruct (Z.ltb_spec c 128), (Z.ltb_spec (c * 256 ^ Z.of_nat (length rest) + be_value rest)
                                  (128 * 256 ^ Z.of_nat (length rest)));
    try reflexivity; nia.
Qed.

Lemma be_value_flip_msb (cells : list Z) :
  Forall cell cells -> cells <> [] ->
  be_value (flip_msb cells) =
  if be_value cells <? msb_weight (length cells)
  then be_value cells + msb_weight (length cells)
  else be_value cells - msb_weight (length cells).
Proof.
  intros Hc Hne. rewrite <- hd_lt_msb by assumption.
  destruct Hc as [|c rest Hc Hrest]; [congruence|].
  cbn [hd flip_msb be_value length]. unfold msb_weight.
  replace (S (length rest) - 1)%nat with (length rest) by lia.
  rewrite xor_msb by assumption.
  destruct (c <? 128); ring.
Qed.

Lemma be_value_set_msb (cells : list Z) :
  Forall cell cells -> cells <> [] ->
  be_value (set_msb cells) =
  if be_value cells <? msb_weight (length cells)
  then be_value cells + msb_weight (length cells)
  else be_value cells.
Proof.
  intros Hc Hne. rewrite <- hd_lt_msb by assumption.
  destruct Hc as [|c rest Hc Hrest]; [congruence|].
  cbn [hd set_msb be_value length]. unfold msb_weight.
  replace (S (length rest) - 1)%nat with (length rest) by lia.
  rewrite or_msb by assumption.
  destruct (c <? 128); ring.
Qed.

Lemma be_value_complement (cells : list Z) :
  Forall cell cells ->
  be_value (map complement cells) =
  256 ^ Z.of_nat (length cells) - 1 - be_value cells.
Proof.
  induction 1 as [|c cells Hc _ IH].
  - reflexivity.
  - cbn [map be_value length]. rewrite length_map, IH, pow256_succ.
    rewrite (complement_cell c Hc). ring.
Qed.

Lemma be_cells_nonempty (n : nat) (x : Z) : (0 < n)%nat -> be_cells n x <> [].
Proof. destruct n; [lia | discriminate]. Qed.

Lemma width_pos (d : domain) : (0 < width d)%nat.
Proof. destruct d; cbv; lia. Qed.

Lemma pow_bit_width (d : domain) : 2 ^ bit_width d = 256 ^ Z.of_nat (width d).
Proof. unfold bit_width. rewrite Z.pow_mul_r by lia. reflexivity. Qed.

Lemma pow_sign_bit (d : domain) : 2 ^ (bit_width d - 1) = msb_weight (width d).
Proof. destruct d; reflexivity. Qed.

(** ** IEEE-754 comparisons on bit patterns *)

Lemma sign_bit_test (x n : Z) :
  0 <= n -> 0 <= x < 2 * 2 ^ n -> Z.testbit x n = (2 ^ n <=? x).
Proof.
  intros Hn Hx.
  assert (Hp : 0 < 2 ^ n) by (apply Z.pow_pos_nonneg; lia).
  destruct (Z.leb_spec (2 ^ n) x) as [H|H].
  - apply Z.testbit_true; [lia|].
    assert (E : x / 2 ^ n = 1).
    { symmetry. apply Z.div_unique with (r := x - 2 ^ n); lia. }
    now rewrite E.
  - destruct (Z.eq_dec x 0) as [->|]; [apply Z.bits_0|].
    apply Z.bits_above_log2; [lia|].
    apply Z.log2_lt_pow2; lia.
Qed.

(** The three fields of a bit pattern. *)
Lemma float_fields (f : float_format) (x : Z) :
  standard f -> 0 <= x < 2 * sign_weight f ->
  exists e m : Z,
    0 <= e < 2 ^ exp_bits f /\ 0 <= m < 2 ^ mant_bits f /\
    x = (if sign_weight f <=? x then sign_weight f else 0) + e * 2 ^ mant_bits f + m /\
    (x / 2 ^ mant_bits f) mod 2 ^ exp_bits f = e /\
    x mod 2 ^ mant_bits f = m /\
    Z.testbit x (exp_bits f + mant_bits f) = (sign_weight f <=? x).
Proof.
  intros Hf Hx.
  exists ((x / 2 ^ mant_bits f) mod 2 ^ exp_bits f), (x mod 2 ^ mant_bits f).
  rewrite sign_bit_test; [|destruct Hf; subst f; cbv; discriminate | exact Hx].
  unfold sign_weight in *.
  destruct Hf; subst f; cbn [mant_bits exp_bits binary32 binary64] in *;
    match goal with |- context [?a <=? x] => destruct (Z.leb_spec a x) end;
    repeat split; try reflexivity;
    Z.div_mod_to_equations; lia.
Qed.

Lemma standard_width (f : float_format) :
  standard f -> 0 < sign_weight f.
Proof. intros [->| ->]; reflexivity. Qed.

Lemma bits_shape (f : float_format) (x : Z) :
  standard f -> 0 <= x < 2 * sign_weight f -> is_nan f x = false ->
  shape f (sign_of f x) (magnitude f x) (bits_to_SF f x).
Proof.
  intros Hf Hr.
  destruct (float_fields f x Hf Hr) as (e & m & He & Hm & Hx & Ee & Em & Es).
  unfold is_nan, bits_to_SF, magnitude, sign_of. rewrite Ee, Em, Es. clear Ee Em Es.
  destruct (sign_weight f <=? x);
    match goal with |- context [e =? 0] => destruct (Z.eqb_spec e 0) end.
  all: try (destruct m as [|p|p]; intros _;
            [ apply shape_zero
            | apply shape_finite; unfold min_exponent, infinity_code
            | exfalso ];
            destruct Hf; subst f; cbn [mant_bits exp_bits binary32 binary64] in *; lia).
  all: match goal with |- context [?e0 =? ?a] => destruct (Z.eqb_spec e0 a) end.
  all: try (destruct m as [|p|p]; intros Hn; try discriminate Hn;
            apply shape_infinity; unfold infinity_code;
            destruct Hf; subst f; cbn [mant_bits exp_bits binary32 binary64] in *; lia).
  all: destruct (m + 2 ^ mant_bits f) as [|p|p] eqn:E; intros Hn; try discriminate Hn;
       apply shape_finite; unfold min_exponent, infinity_code;
       destruct Hf; subst f; cbn [mant_bits exp_bits binary32 binary64] in *; lia.
Qed.

Lemma nan_magnitude (f : float_format) (x : Z) :
  standard f -> 0 <= x < 2 * sign_weight f ->
  is_nan f x = (infinity_code f <? magnitude f x).
Proof.
  intros Hf Hr.
  destruct (float_fields f x Hf Hr) as (e & m & He & Hm & Hx & Ee & Em & Es).
  unfold is_nan, bits_to_SF, magnitude, sign_of, infinity_code. rewrite Ee, Em, Es. clear Ee Em Es.
  destruct (sign_weight f <=? x);
    match goal with |- context [e =? 0] => destruct (Z.eqb_spec e 0) end.
  all: try (destruct m as [|p|p]; 
            destruct Hf; subst f; cbn [mant_bits exp_bits binary32 binary64] in *; 
            match goal with |- _ = (?a <? ?b) => destruct (Z.ltb_spec a b) end; (reflexivity || lia)).
  all: match goal with |- context [?e0 =? ?a] => destruct (Z.eqb_spec e0 a) end.
  all: try (destruct m as [|p|p]; 
            destruct Hf; subst f; cbn [mant_bits exp_bits binary32 binary64] in *; 
            match goal with |- _ = (?a <? ?b) => destruct (Z.ltb_spec a b) end; (reflexivity || lia)).
  all: destruct (m + 2 ^ mant_bits f) as [|p|p] eqn:E;
            destruct Hf; subst f; cbn [mant_bits exp_bits binary32 binary64] in *; 
            match goal with |- _ = (?a <? ?b) => destruct (Z.ltb_spec a b) end; (reflexivity || lia).
Qed.

Lemma SFcompare_shape (f : float_format) (s1 s2 : bool) (g1 g2 : Z) (y1 y2 : spec_float) :
  standard f -> 0 <= g1 -> 0 <= g2 ->
  shape f s1 g1 y1 -> shape f s2 g2 y2 ->
  SFcompare y1 y2 = Some ((if s1 then - g1 else g1) ?= (if s2 then - g2 else g2)).
Proof.
  intros Hf Hg1 Hg2 H1 H2.
  assert (Hi : 0 < infinity_code f) by (destruct Hf; subst f; reflexivity).
  destruct H1 as [Hz1 | Hi1 | p1 ex1 Hlo1 Hhi1 Hn1 Hv1 Hlt1],
           H2 as [Hz2 | Hi2 | p2 ex2 Hlo2 Hhi2 Hn2 Hv2 Hlt2];
    cbn [SFcompare]; f_equal; symmetry.
  all: try (destruct s1, s2;
       first [ apply Z.compare_eq_iff; lia
             | apply Z.compare_lt_iff; lia
             | apply Z.compare_gt_iff; lia ]).
  change (Pos.compare_cont Eq p1 p2) with (Z.pos p1 ?= Z.pos p2).
  unfold min_exponent, infinity_code in *.
  destruct s1, s2;
  destruct Hf; subst f; cbn [mant_bits exp_bits binary32 binary64] in *;
  destruct (Z.compare_spec ex1 ex2); try destruct (Z.compare_spec (Z.pos p1) (Z.pos p2)); cbn [CompOpp];
       first [ apply Z.compare_eq_iff; lia
             | apply Z.compare_lt_iff; lia
             | apply Z.compare_gt_iff; lia ].
Qed.

Lemma shape_range (f : float_format) (x : Z) :
  0 <= x < 2 * sign_weight f -> 0 <= magnitude f x.
Proof.
  intros Hr. unfold magnitude, sign_of.
  destruct (Z.leb_spec (sign_weight f) x); lia.
Qed.

(** The comparison of two patterns, neither of them a NaN, is the comparison
    of their signed magnitudes. *)
Lemma float_compare (f : float_format) (a b : Z) :
  standard f -> 0 <= a < 2 * sign_weight f -> 0 <= b < 2 * sign_weight f ->
  is_nan f a = false -> is_nan f b = false ->
  SFcompare (bits_to_SF f a) (bits_to_SF f b) = Some (ordinal f a ?= ordinal f b).
Proof.
  intros Hf Ha Hb Na Nb. unfold ordinal.
  apply (SFcompare_shape f); auto using shape_range, bits_shape.
Qed.

Lemma float_compare_nan (f : float_format) (a b : Z) :
  is_nan f a = true \/ is_nan f b = true ->
  SFcompare (bits_to_SF f a) (bits_to_SF f b) = None.
Proof.
  unfold is_nan. intros [H|H].
  - destruct (bits_to_SF f a); try discriminate H. reflexivity.
  - destruct (bits_to_SF f b); try discriminate H.
    destruct (bits_to_SF f a); reflexivity.
Qed.

Lemma ordinal_zero (f : float_format) : standard f -> ordinal f 0 = 0.
Proof. intros [->| ->]; reflexivity. Qed.

Lemma zero_pattern (f : float_format) :
  standard f -> bits_to_SF f 0 = S754_zero false.
Proof. intros [->| ->]; reflexivity. Qed.

Lemma float_lt_spec (f : float_format) (a b : Z) :
  standard f -> 0 <= a < 2 * sign_weight f -> 0 <= b < 2 * sign_weight f ->
  float_lt f a b = true <->
  is_nan f a = false /\ is_nan f b = false /\ ordinal f a < ordinal f b.
Proof.
  intros Hf Ha Hb. unfold float_lt, SFltb.
  destruct (is_nan f a) eqn:Na; [rewrite float_compare_nan by auto; intuition congruence|].
  destruct (is_nan f b) eqn:Nb; [rewrite float_compare_nan by auto; intuition congruence|].
  rewrite float_compare by assumption.
  destruct (Z.compare_spec (ordinal f a) (ordinal f b)); intuition (congruence || lia).
Qed.


Lemma float_ge0_spec (f : float_format) (x : Z) :
  standard f -> 0 <= x < 2 * sign_weight f ->
  float_ge0 f x = true <-> is_nan f x = false /\ 0 <= ordinal f x.
Proof.
  intros Hf Hx. unfold float_ge0, SFleb.
  rewrite <- (zero_pattern f Hf).
  destruct (is_nan f x) eqn:Nx; [rewrite float_compare_nan by auto; intuition congruence|].
  pose proof (standard_width f Hf).
  rewrite float_compare, ordinal_zero by (assumption || reflexivity || lia).
  destruct (Z.compare_spec 0 (ordinal f x)); intuition (congruence || lia).
Qed.

Lemma float_lt0_spec (f : float_format) (x : Z) :
  standard f -> 0 <= x < 2 * sign_weight f ->
  float_lt0 f x = true <-> is_nan f x = false /\ ordinal f x < 0.
Proof.
  intros Hf Hx. unfold float_lt0, SFltb.
  rewrite <- (zero_pattern f Hf).
  destruct (is_nan f x) eqn:Nx; [rewrite float_compare_nan by auto; intuition congruence|].
  pose proof (standard_width f Hf).
  rewrite float_compare, ordinal_zero by (assumption || reflexivity || lia).
  destruct (Z.compare_spec (ordinal f x) 0); intuition (congruence || lia).
Qed.

Lemma float_ge0_cases (f : float_format) (x : Z) :
  standard f -> 0 <= x < 2 * sign_weight f -> is_nan f x = false ->
  float_ge0 f x = (x <=? sign_weight f).
Proof.
  intros Hf Hx Nx.
  pose proof (float_ge0_spec f x Hf Hx) as G.
  unfold ordinal, magnitude, sign_of in G.
  destruct (Z.leb_spec (sign_weight f) x) as [H|H];
    destruct (Z.leb_spec x (sign_weight f)) as [H'|H'];
    destruct (float_ge0 f x); cbv iota in G; destruct G as [G1 G2];
    first [ reflexivity
          | lia
          | specialize (G1 eq_refl); lia
          | apply G2; split; [assumption|lia] ].
Qed.

Lemma float_key_ordinal (f : float_format) (x : Z) :
  standard f -> 0 <= x < 2 * sign_weight f -> is_nan f x = false ->
  float_key f x =
  if 0 <=? ordinal f x then ordinal f x + sign_weight f
  else ordinal f x + sign_weight f - 1.
Proof.
  intros Hf Hx Nx. unfold float_key.
  rewrite float_ge0_cases by assumption.
  unfold ordinal, magnitude, sign_of.
  destruct (Z.leb_spec (sign_weight f) x);
    destruct (Z.leb_spec x (sign_weight f));
    destruct (Z.ltb_spec x (sign_weight f));
    match goal with |- context [0 <=? ?t] => destruct (Z.leb_spec 0 t) end;
    lia.
Qed.

Lemma float_unkey_key (f : float_format) (x : Z) :
  standard f -> 0 <= x < 2 * sign_weight f -> is_nan f x = false ->
  float_unkey f (float_key f x) = if x =? sign_weight f then 0 else x.
Proof.
  intros Hf Hx Nx. unfold float_key, float_unkey.
  rewrite float_ge0_cases by assumption.
  destruct (Z.leb_spec x (sign_weight f));
    destruct (Z.eqb_spec x (sign_weight f));
    repeat match goal with |- context [?a <? ?b] => destruct (Z.ltb_spec a b) end;
    lia.
Qed.

(** ** The domains *)

Lemma representable_dec (d : domain) (x : Z) :
  {representable d x} + {~ representable d x}.
Proof.
  unfold representable.
  destruct (Z_le_dec (lower_bound d) x); destruct (Z_le_dec x (upper_bound d));
    (left; lia) || (right; lia).
Qed.

Lemma float_domain (d : domain) (f : float_format) :
  class_of d = ieee_float f ->
  standard f /\ sign_weight f = msb_weight (width d) /\
  (forall x, representable d x <-> 0 <= x < 2 * sign_weight f).
Proof.
  intros Hd.
  destruct d; try discriminate Hd; injection Hd as <-;
    (split; [unfold standard; auto|]); (split; [reflexivity|]);
    intros x; unfold representable;
    match goal with
    | |- lower_bound ?d <= _ <= upper_bound ?d <-> _ =>
      let l := eval vm_compute in (lower_bound d) in
      let u := eval vm_compute in (upper_bound d) in
      change (lower_bound d) with l; change (upper_bound d) with u
    end;
    match goal with
    | |- context [sign_weight ?f] =>
      let w := eval vm_compute in (sign_weight f) in change (sign_weight f) with w
    end; lia.
Qed.

Lemma is_integer_class (d : domain) :
  is_integer d = false -> exists f, class_of d = ieee_float f.
Proof. destruct d; try discriminate; intros _; eexists; reflexivity. Qed.

Lemma int_wire_length (h : byte_order) (d : domain) (v : Z) :
  length (int_wire h d v) = width d.
Proof.
  unfold int_wire.
  destruct (class_of d);
    rewrite ?flip_msb_length, shift_order_length, be_cells_length; reflexivity.
Qed.

Lemma int_wire_range (h : byte_order) (d : domain) (v : Z) :
  Forall cell (int_wire h d v).
Proof.
  unfold int_wire.
  destruct (class_of d);
    auto using flip_msb_range, shift_order_range, be_cells_range.
Qed.

Lemma float_wire_length (f : float_format) (n : nat) (x : Z) :
  length (float_wire f n x) = n.
Proof.
  unfold float_wire.
  destruct (float_ge0 f x);
    rewrite ?set_msb_length, ?length_map, be_cells_length; reflexivity.
Qed.

Lemma float_wire_range (f : float_format) (n : nat) (x : Z) :
  Forall cell (float_wire f n x).
Proof.
  unfold float_wire.
  destruct (float_ge0 f x);
    auto using set_msb_range, complement_range, be_cells_range.
Qed.

Lemma to_signed_of_mod (bits x : Z) :
  0 < bits -> to_signed bits (x mod 2 ^ bits) = to_signed bits x.
Proof.
  intros Hb. unfold to_signed. f_equal.
  assert (0 < 2 ^ bits) by (apply Z.pow_pos_nonneg; lia).
  now rewrite Zplus_mod_idemp_l.
Qed.

Lemma bit_width_pos (d : domain) : 0 < bit_width d.
Proof. destruct d; reflexivity. Qed.

(** Decoding what an integer encoder wrote. *)
Lemma int_unwire_wire (h : byte_order) (d : domain) (v : Z) :
  is_integer d = true -> representable d v ->
  int_unwire h d (int_wire h d v) = v.
Proof.
  intros Hd Hv. unfold int_unwire, int_wire, representable, lower_bound, upper_bound in *.
  pose proof (bit_width_pos d) as Hb.
  destruct (class_of d) eqn:Hc.
  - rewrite flip_msb_involutive, shift_order_involutive, be_value_be_cells.
    rewrite <- pow_bit_width, to_signed_of_mod by assumption.
    apply to_signed_small; lia.
  - rewrite shift_order_involutive, be_value_be_cells, <- pow_bit_width.
    apply Z.mod_small. lia.
  - unfold is_integer in Hd. rewrite Hc in Hd. discriminate.
Qed.

Lemma int_unwire_range (h : byte_order) (d : domain) (cells : list Z) :
  is_integer d = true -> Forall cell cells -> length cells = width d ->
  representable d (int_unwire h d cells).
Proof.
  intros Hd Hc Hlen. unfold int_unwire, representable, lower_bound, upper_bound.
  pose proof (bit_width_pos d) as Hb.
  destruct (class_of d) eqn:Hcl.
  - apply to_signed_range. assumption.
  - pose proof (be_value_range _ (shift_order_range h _ Hc)) as R.
    rewrite shift_order_length, Hlen, <- pow_bit_width in R. lia.
  - unfold is_integer in Hd. rewrite Hcl in Hd. discriminate.
Qed.

(** Encoding what an integer decoder read. *)
Lemma int_wire_unwire (h : byte_order) (d : domain) (cells : list Z) :
  is_integer d = true -> Forall cell cells -> length cells = width d ->
  int_wire h d (int_unwire h d cells) = cells.
Proof.
  intros Hd Hc Hlen. unfold int_unwire, int_wire.
  pose proof (bit_width_pos d) as Hb.
  destruct (class_of d) eqn:Hcl.
  - rewrite <- be_cells_mod, <- pow_bit_width, to_signed_mod by assumption.
    rewrite pow_bit_width, be_cells_mod.
    rewrite <- Hlen, <- (flip_msb_length cells), <- (shift_order_length h).
    rewrite be_cells_be_value by auto using shift_order_range, flip_msb_range.
    now rewrite shift_order_involutive, flip_msb_involutive.
  - rewrite <- Hlen, <- (shift_order_length h).
    rewrite be_cells_be_value by auto using shift_order_range.
    apply shift_order_involutive.
  - unfold is_integer in Hd. rewrite Hcl in Hd. discriminate.
Qed.

(** The float encoders write the big-endian bytes of the sort key. *)
Lemma float_wire_value (d : domain) (f : float_format) (x : Z) :
  class_of d = ieee_float f -> representable d x ->
  be_value (float_wire f (width d) x) = float_key f x.
Proof.
  intros Hd Hx.
  destruct (float_domain d f Hd) as (Hf & Hw & Hr). apply Hr in Hx.
  pose proof (width_pos d) as Hp.
  pose proof (msb_weight_double (width d) Hp) as Hm.
  assert (Hv : be_value (be_cells (width d) x) = x).
  { rewrite be_value_be_cells. apply Z.mod_small. lia. }
  unfold float_wire, float_key.
  destruct (float_ge0 f x).
  - rewrite be_value_set_msb by auto using be_cells_range, be_cells_nonempty.
    now rewrite be_cells_length, Hv, Hw.
  - rewrite be_value_complement, be_cells_length, Hv by apply be_cells_range. lia.
Qed.

Lemma float_unwire_value (d : domain) (f : float_format) (cells : list Z) :
  class_of d = ieee_float f -> Forall cell cells -> length cells = width d ->
  float_unwire cells = float_unkey f (be_value cells).
Proof.
  intros Hd Hc Hlen.
  destruct (float_domain d f Hd) as (Hf & Hw & Hr).
  pose proof (width_pos d) as Hp.
  pose proof (msb_weight_double (width d) Hp) as Hm.
  assert (Hne : cells <> []) by (intros ->; simpl in Hlen; lia).
  unfold float_unwire, float_unkey.
  pose proof (hd_lt_msb cells Hc Hne) as Hh. rewrite Hlen, <- Hw in Hh.
  rewrite <- Hh.
  destruct (Z.leb_spec 128 (hd 0 cells)); destruct (Z.ltb_spec (hd 0 cells) 128);
    try lia.
  - rewrite be_value_flip_msb by assumption.
    rewrite Hlen, <- Hw, <- Hh.
    destruct (Z.ltb_spec (hd 0 cells) 128); [lia | reflexivity].
  - rewrite be_value_complement, Hlen by assumption. lia.
Qed.

Lemma float_unkey_range (f : float_format) (k : Z) :
  0 <= k < 2 * sign_weight f -> 0 <= float_unkey f k < 2 * sign_weight f.
Proof.
  intros Hk. unfold float_unkey.
  destruct (Z.ltb_spec k (sign_weight f)); lia.
Qed.

Lemma encode_out_of_range (h : byte_order) (d : domain) (x : Z) :
  is_integer d = true -> ~ representable d x ->
  encode h d x = Raise (rejection d x).
Proof.
  intros Hd Hx. unfold representable in Hx.
  destruct d; try discriminate Hd;
    match type of Hx with
    | ~ (lower_bound ?d <= _ <= upper_bound ?d) =>
      let l := eval vm_compute in (lower_bound d) in
      let u := eval vm_compute in (upper_bound d) in
      change (~ (l <= x <= u)) in Hx
    end;
    cbv [encode from_int8 from_uint8 from_int16 from_uint16 from_int32
         from_uint32 from_int64 PyArg_Parse_h PyArg_Parse_i PyArg_Parse_L
         rejection checked_after_parse];
    rewrite ?from_uint64_out by lia;
    try reflexivity;
    unfold parse_signed;
    match goal with
    | |- context [(?a <=? x) && (x <=? ?b)] =>
      destruct (Z.leb_spec a x); destruct (Z.leb_spec x b); cbn [andb]
    end;
    rewrite ?range_check_out by lia; reflexivity || lia.
Qed.

(** ** Every entry point in closed form *)

Lemma encode_closed (h : byte_order) (d : domain) (x : Z) :
  representable d x -> encode h d x = Ok (map byte_of_cell (wire h d x)).
Proof.
  intros Hx. unfold wire. destruct (class_of d) eqn:Hc.
  - apply encode_int_closed; [unfold is_integer; now rewrite Hc | assumption].
  - apply encode_int_closed; [unfold is_integer; now rewrite Hc | assumption].
  - now apply encode_float_closed.
Qed.

Lemma decode_closed (h : byte_order) (d : domain) (bs : list byte) :
  length bs = width d -> decode h d bs = Ok (unwire h d (map cell_of_byte bs)).
Proof.
  intros Hlen. unfold unwire. destruct (class_of d) eqn:Hc.
  - apply decode_int_closed; [unfold is_integer; now rewrite Hc | assumption].
  - apply decode_int_closed; [unfold is_integer; now rewrite Hc | assumption].
  - apply decode_float_closed; [unfold is_integer; now rewrite Hc | assumption].
Qed.

Lemma wire_length (h : byte_order) (d : domain) (x : Z) :
  length (wire h d x) = width d.
Proof.
  unfold wire. destruct (class_of d); auto using int_wire_length, float_wire_length.
Qed.

Lemma wire_range (h : byte_order) (d : domain) (x : Z) : Forall cell (wire h d x).
Proof.
  unfold wire. destruct (class_of d); auto using int_wire_range, float_wire_range.
Qed.

Lemma decode_encoded (h : byte_order) (d : domain) (x : Z) :
  decode h d (map byte_of_cell (wire h d x)) = Ok (unwire h d (wire h d x)).
Proof.
  rewrite decode_closed by (rewrite length_map; apply wire_length).
  now rewrite map_cell_of_byte_of_cell by apply wire_range.
Qed.

Lemma unwire_range (h : byte_order) (d : domain) (cells : list Z) :
  Forall cell cells -> length cells = width d -> representable d (unwire h d cells).
Proof.
  intros Hc Hlen. unfold unwire. destruct (class_of d) eqn:Hcl.
  - apply int_unwire_range; auto. unfold is_integer. now rewrite Hcl.
  - apply int_unwire_range; auto. unfold is_integer. now rewrite Hcl.
  - destruct (float_domain d f Hcl) as (Hf & Hw & Hr).
    rewrite (float_unwire_value d f) by assumption.
    apply Hr, float_unkey_range.
    pose proof (be_value_range cells Hc) as R.
    rewrite Hlen, <- (msb_weight_double _ (width_pos d)), <- Hw in R. exact R.
Qed.



Lemma nan_not_ge0 (f : float_format) (x : Z) :
  standard f -> 0 <= x < 2 * sign_weight f ->
  is_nan f x = true -> float_ge0 f x = false.
Proof.
  intros Hf Hx Hn. destruct (float_ge0 f x) eqn:G; [|reflexivity].
  apply float_ge0_spec in G; try assumption. destruct G. congruence.
Qed.

(** * The claims *)

(** C6. Every encoder, given a value of its domain, returns a byte string of
    exactly the [width] of the domain, no encoder returns a string of any other
    length, and every decoder answers a byte string of any other length with
    the length error, whatever the bytes are. *)
Theorem fixed_width (h : byte_order) (d : domain) :
  (forall x, representable d x ->
     exists bs, encode h d x = Ok bs /\ length bs = width d) /\
  (forall x bs, encode h d x = Ok bs -> length bs = width d) /\
  (forall bs, length bs <> width d -> decode h d bs = Raise LengthError).
Proof.
  split; [|split].
  - intros x Hx. exists (map byte_of_cell (wire h d x)).
    split; [now apply encode_closed|].
    rewrite length_map. apply wire_length.
  - intros x bs He.
    destruct (representable_dec d x) as [Hx|Hx].
    + rewrite encode_closed in He by assumption.
      injection He as <-. rewrite length_map. apply wire_length.
    + destruct (is_integer d) eqn:Hd.
      * rewrite encode_out_of_range in He by assumption. discriminate He.
      * destruct (is_integer_class d Hd) as [f Hf].
        rewrite (encode_float_closed h d f) in He by assumption.
        injection He as <-. rewrite length_map. apply float_wire_length.
  - intros bs Hlen.
    destruct d;
      cbv [decode to_int8 to_uint8 to_int16 to_uint16 to_int32 to_uint32
           to_int64 to_uint64 to_float32 to_float64];
      match goal with
      | |- context [(length bs =? ?n)%nat] =>
        destruct (Nat.eqb_spec (length bs) n); [contradiction | reflexivity]
      end.
Qed.

Lemma fixed_width_witness :
  (exists bs, encode LittleEndian int32 5 = Ok bs /\ length bs = width int32) /\
  length [x80; x00; x00; x05] = width int32 /\
  decode LittleEndian int32 [x80; x00; x00] = Raise LengthError.
Proof.
  destruct (fixed_width LittleEndian int32) as (Hx & He & Hd).
  split; [|split].
  - apply Hx. cbv. split; discriminate.
  - apply (He 5). reflexivity.
  - apply Hd. discriminate.
Defined.

(** C9. On a byte string of the domain's width every decoder succeeds, and
    the value it returns is one of the domain. *)
Theorem decode_total (h : byte_order) (d : domain) (bs : list byte) :
  length bs = width d ->
  exists v, decode h d bs = Ok v /\ representable d v.
Proof.
  intros Hlen. exists (unwire h d (map cell_of_byte bs)). split.
  - now apply decode_closed.
  - apply unwire_range; [apply map_cell_of_byte_range | now rewrite length_map].
Qed.

Lemma decode_total_witness :
  exists v, decode BigEndian float32 [x00; x7f; xff; xff] = Ok v /\
            representable float32 v.
Proof. apply decode_total. reflexivity. Defined.

(** C10. For an integer domain the two directions are inverse to each other
    on either host: a byte string of the domain's width decodes to a value of
    the domain that encodes to the same string, and a value of the domain
    encodes to a string of that width that decodes to the same value. *)
Theorem integer_codec_bijective (h : byte_order) (d : domain) :
  is_integer d = true ->
  (forall bs, length bs = width d ->
     exists v, decode h d bs = Ok v /\ representable d v /\ encode h d v = Ok bs) /\
  (forall v, representable d v ->
     exists bs, encode h d v = Ok bs /\ length bs = width d /\ decode h d bs = Ok v).
Proof.
  intros Hd.
  assert (Hw : forall x, wire h d x = int_wire h d x).
  { intros x. unfold wire. unfold is_integer in Hd.
    destruct (class_of d); [reflexivity | reflexivity | discriminate]. }
  assert (Hu : forall c, unwire h d c = int_unwire h d c).
  { intros c. unfold unwire. unfold is_integer in Hd.
    destruct (class_of d); [reflexivity | reflexivity | discriminate]. }
  split.
  - intros bs Hlen.
    assert (Hr : representable d (unwire h d (map cell_of_byte bs))).
    { apply unwire_range; [apply map_cell_of_byte_range | now rewrite length_map]. }
    exists (unwire h d (map cell_of_byte bs)).
    split; [now apply decode_closed | split; [assumption |]].
    rewrite encode_closed by assumption.
    rewrite Hw, Hu, int_wire_unwire;
      auto using map_cell_of_byte_range, map_byte_of_cell_of_byte.
    + now rewrite map_byte_of_cell_of_byte.
    + now rewrite length_map.
  - intros v Hv. exists (map byte_of_cell (wire h d v)).
    split; [|split].
    + now apply encode_closed.
    + rewrite length_map. apply wire_length.
    + rewrite decode_encoded, Hw, Hu. f_equal. now apply int_unwire_wire.
Qed.

Lemma integer_codec_bijective_witness :
  (exists v, decode BigEndian int16 [x81; x02] = Ok v /\ representable int16 v /\
             encode BigEndian int16 v = Ok [x81; x02]) /\
  (exists bs, encode BigEndian int16 258 = Ok bs /\ length bs = width int16 /\
              decode BigEndian int16 bs = Ok 258).
Proof.
  destruct (integer_codec_bijective BigEndian int16 eq_refl) as [Hb Hv]. split.
  - apply Hb. reflexivity.
  - apply Hv. unfold representable. cbv. split; discriminate.
Defined.




(** X13. What the round trip returns for a float that is not a NaN, on
    either host: the same bit pattern, except that negative zero comes back
    as positive zero. *)
Lemma float_round_trip_bits (h : byte_order) (d : domain) (f : float_format) (x : Z) :
  class_of d = ieee_float f -> representable d x -> is_nan f x = false ->
  exists bs, encode h d x = Ok bs /\
             decode h d bs = Ok (if x =? sign_weight f then 0 else x).
Proof.
  intros Hc Hx Hn. exists (map byte_of_cell (wire h d x)).
  split; [now apply encode_closed|].
  rewrite decode_encoded. unfold wire, unwire. rewrite Hc.
  destruct (float_domain d f Hc) as (Hf & Hw & Hr).
  rewrite (float_unwire_value d f)
    by auto using float_wire_range, float_wire_length.
  rewrite (float_wire_value d f), float_unkey_key; auto. now apply Hr.
Qed.

(** C5, as stated, fails: 32768 is outside int16 and [from_int16] answers
    with the type error that follows a failed parse, not with the range
    error. *)
Lemma range_error_fails_for_int16 :
  ~ representable int16 32768 /\
  encode LittleEndian int16 32768 = Raise TypeMismatch /\
  encode LittleEndian int16 32768 <> Raise RangeError.
Proof.
  split; [cbv; intros [_ H]; now apply H|].
  split; [reflexivity | discriminate].
Qed.

(** C5, amended. For an integer domain, a value of the domain is encoded,
    and an integer outside it is refused without any bytes: with the range
    error when the domain is one of int8, uint8, uint16, uint32 and the
    integer fits the C type the argument is parsed into (32 bits for the
    first three, 64 for uint32), with the type error in every other case.
    The float encoders refuse no parsed value. *)
Theorem range_rejection (h : byte_order) (d : domain) (x : Z) :
  (is_integer d = true -> representable d x ->
     exists bs, encode h d x = Ok bs) /\
  (is_integer d = true -> ~ representable d x ->
     encode h d x = Raise (rejection d x)) /\
  (is_integer d = false -> exists bs, encode h d x = Ok bs).
Proof.
  split; [|split].
  - intros _ Hx. eexists. now apply encode_closed.
  - apply encode_out_of_range.
  - intros Hd. destruct (is_integer_class d Hd) as [f Hf].
    eexists. now apply (encode_float_closed h d f).
Qed.

Lemma range_rejection_witness :
  (exists bs, encode LittleEndian uint32 4294967295 = Ok bs) /\
  encode LittleEndian uint32 4294967296 = Raise RangeError /\
  encode LittleEndian uint8 300 = Raise RangeError /\
  encode LittleEndian int8 (-129) = Raise RangeError /\
  encode LittleEndian uint8 (2 ^ 31) = Raise TypeMismatch /\
  encode LittleEndian int64 (2 ^ 63) = Raise TypeMismatch.
Proof.
  split; [|split; [|split; [|split; [|split]]]].
  - apply (proj1 (range_rejection LittleEndian uint32 4294967295) eq_refl).
    cbv. split; discriminate.
  - apply (proj1 (proj2 (range_rejection LittleEndian uint32 4294967296)) eq_refl).
    cbv. intros [_ H]. now apply H.
  - apply (proj1 (proj2 (range_rejection LittleEndian uint8 300)) eq_refl).
    cbv. intros [_ H]. now apply H.
  - apply (proj1 (proj2 (range_rejection LittleEndian int8 (-129))) eq_refl).
    cbv. intros [H _]. now apply H.
  - apply (proj1 (proj2 (range_rejection LittleEndian uint8 (2 ^ 31))) eq_refl).
    cbv. intros [_ H]. now apply H.
  - apply (proj1 (proj2 (range_rejection LittleEndian int64 (2 ^ 63))) eq_refl).
    cbv. intros [_ H]. now apply H.
Defined.

Lemma float_lt0_not_ge0 (f : float_format) (x : Z) :
  float_lt0 f x = true -> float_ge0 f x = false.
Proof.
  unfold float_lt0, float_ge0.
  destruct (bits_to_SF f x) as [s|s| |s m e]; try destruct s;
    cbv; congruence.
Qed.

Lemma float_ge0_zeros (f : float_format) :
  standard f -> float_ge0 f 0 = true /\ float_ge0 f (sign_weight f) = true.
Proof. intros [->| ->]; split; reflexivity. Qed.

(** C7. On either host, a float that compares [>= 0], as both zeros do, is
    encoded as its big-endian bit pattern with [0x80] or-ed into byte 0, and
    a float that compares [< 0] as the complement of every byte of that
    pattern. *)
Theorem float_encoding (h : byte_order) (d : domain) (f : float_format) (x : Z) :
  class_of d = ieee_float f ->
  (float_ge0 f x = true ->
     encode h d x = Ok (map byte_of_cell (set_msb (be_cells (width d) x)))) /\
  (float_lt0 f x = true ->
     encode h d x = Ok (map byte_of_cell (map complement (be_cells (width d) x)))) /\
  float_ge0 f 0 = true /\ float_ge0 f (sign_weight f) = true.
Proof.
  intros Hc. destruct (float_domain d f Hc) as (Hf & _ & _).
  split; [|split; [|now apply float_ge0_zeros]].
  - intros Hge. rewrite (encode_float_closed h d f) by assumption.
    unfold float_wire. now rewrite Hge.
  - intros Hlt. rewrite (encode_float_closed h d f) by assumption.
    unfold float_wire. now rewrite (float_lt0_not_ge0 f x Hlt).
Qed.

Lemma float_encoding_witness :
  encode BigEndian float32 0x3f800000 = Ok [xbf; x80; x00; x00] /\
  encode BigEndian float32 0xbf800000 = Ok [x40; x7f; xff; xff].
Proof.
  split.
  - apply (proj1 (float_encoding BigEndian float32 binary32 0x3f800000 eq_refl)).
    reflexivity.
  - apply (proj1 (proj2 (float_encoding BigEndian float32 binary32 0xbf800000 eq_refl))).
    reflexivity.
Defined.

(** C8, as stated, fails: the two zeros are not the only colliding pair. The
    quiet NaN [0x7fc00000] and the subnormal [0x003fffff] of float32 are
    encoded as the same four bytes. *)
Lemma nan_collides_with_subnormal :
  representable float32 0x7fc00000 /\ representable float32 0x003fffff /\
  0x7fc00000 <> 0x003fffff /\ 0x7fc00000 <> 0 /\ 0x003fffff <> 0 /\
  encode LittleEndian float32 0x7fc00000 = Ok [x80; x3f; xff; xff] /\
  encode LittleEndian float32 0x003fffff = Ok [x80; x3f; xff; xff].
Proof.
  repeat split; try discriminate; reflexivity.
Qed.

(** C8, amended. On either host, negative zero and positive zero are encoded
    as the same bytes, and among the bit patterns other than the NaNs with
    clear sign bit (that is, every pattern that is not a NaN and every NaN
    with the sign bit set) these two are the only ones to collide. *)
Theorem float_collisions (h : byte_order) (d : domain) (f : float_format) :
  class_of d = ieee_float f ->
  encode h d 0 = encode h d (sign_weight f) /\
  (forall a b,
     representable d a -> representable d b ->
     (is_nan f a = true -> sign_weight f <= a) ->
     (is_nan f b = true -> sign_weight f <= b) ->
     encode h d a = encode h d b ->
     a = b \/ (a = 0 /\ b = sign_weight f) \/ (a = sign_weight f /\ b = 0)).
Proof.
  intros Hc. destruct (float_domain d f Hc) as (Hf & Hw & Hr). split.
  - destruct d; try discriminate Hc; injection Hc as <-; destruct h; reflexivity.
  - intros a b Ha Hb Sa Sb He.
    rewrite !(encode_float_closed h d f) in He by assumption.
    injection He as He.
    apply (f_equal (map cell_of_byte)) in He.
    rewrite !map_cell_of_byte_of_cell in He by apply float_wire_range.
    apply (f_equal be_value) in He.
    rewrite !(float_wire_value d f) in He by assumption.
    apply Hr in Ha, Hb.
    unfold float_key in He.
    destruct (is_nan f a) eqn:Na; destruct (is_nan f b) eqn:Nb;
      try specialize (Sa eq_refl); try specialize (Sb eq_refl);
      rewrite ?(nan_not_ge0 f a), ?(nan_not_ge0 f b) in He by assumption;
      rewrite ?(float_ge0_cases f a), ?(float_ge0_cases f b) in He by assumption;
      repeat match type of He with
             | context [?u <=? ?v] => destruct (Z.leb_spec u v)
             | context [?u <? ?v] => destruct (Z.ltb_spec u v)
             end;
      lia.
Qed.

Lemma float_collisions_witness :
  encode LittleEndian float64 0 = encode LittleEndian float64 0x8000000000000000 /\
  (0 = sign_weight binary64 \/
   (0 = 0 /\ sign_weight binary64 = sign_weight binary64) \/
   (0 = sign_weight binary64 /\ sign_weight binary64 = 0)) /\
  (0xfff8000000000000 = 0xfff8000000000000 \/
   (0xfff8000000000000 = 0 /\ 0xfff8000000000000 = sign_weight binary64) \/
   (0xfff8000000000000 = sign_weight binary64 /\ 0xfff8000000000000 = 0)).
Proof.
  destruct (float_collisions LittleEndian float64 binary64 eq_refl) as [Hz Hi].
  split; [exact Hz|]. split.
  - apply (Hi 0 (sign_weight binary64)).
    + cbv. split; discriminate.
    + cbv. split; discriminate.
    + intros N. discriminate N.
    + intros N. discriminate N.
    + reflexivity.
  - apply (Hi 0xfff8000000000000 0xfff8000000000000).
    + cbv. split; discriminate.
    + cbv. split; discriminate.
    + intros _. cbv. discriminate.
    + intros _. cbv. discriminate.
    + reflexivity.
Defined.

(** C1 on a big-endian host: [from_uint16] writes the low byte first, so 1
    and 256, in this order as numbers, are encoded in the opposite order as
    byte strings. *)
Lemma order_lost_on_big_endian_host :
  domain_lt uint16 1 256 /\
  encode BigEndian uint16 1 = Ok [x01; x00] /\
  encode BigEndian uint16 256 = Ok [x00; x01] /\
  lex_lt [x01; x00] [x00; x01] = false /\
  lex_lt [x00; x01] [x01; x00] = true.
Proof. repeat split. Qed.

(** C3 on a big-endian host: the unsigned encoders emit the least
    significant byte first, unlike on a little-endian host. *)
Lemma low_byte_first_on_big_endian_host :
  encode BigEndian uint32 0x01020304 = Ok [x04; x03; x02; x01] /\
  encode LittleEndian uint32 0x01020304 = Ok [x01; x02; x03; x04] /\
  encode BigEndian uint16 1 = Ok [x01; x00] /\
  encode BigEndian uint64 1 = Ok [x01; x00; x00; x00; x00; x00; x00; x00].
Proof. repeat split. Qed.

(** C4 on a big-endian host: [from_int16] emits the low byte first and flips
    the top bit of that byte, and [to_int16] reads the bytes back in the
    same order. *)
Lemma sign_flip_misplaced_on_big_endian_host :
  encode BigEndian int16 258 = Ok [x82; x01] /\
  encode LittleEndian int16 258 = Ok [x81; x02] /\
  decode BigEndian int16 [x81; x02] = Ok 513 /\
  decode LittleEndian int16 [x81; x02] = Ok 258.
Proof. repeat split. Qed.

(** ** Where the claims that fail on a big-endian host do hold *)

Lemma nth_be_cells (n i : nat) (x : Z) :
  (i < n)%nat ->
  nth i (be_cells n x) 0 = (x / 256 ^ Z.of_nat (n - 1 - i)) mod 256.
Proof.
  revert i. induction n as [|k IH]; intros i Hi; [lia|].
  cbn [be_cells]. destruct i as [|i].
  - cbn [nth]. rewrite byte_mask. do 3 f_equal. lia.
  - cbn [nth]. rewrite IH by lia. do 3 f_equal. lia.
Qed.

Lemma shift_order_big_endian (h : byte_order) (d : domain) (x : Z) :
  is_integer d = true -> big_endian_output h d ->
  shift_order h (be_cells (width d) x) = be_cells (width d) x.
Proof.
  intros Hd [->|[H|H]]; [reflexivity | congruence |].
  destruct d; try discriminate H; destruct h; reflexivity.
Qed.

Lemma mod_negative (x m : Z) : - m <= x < 0 -> x mod m = x + m.
Proof.
  intros H. replace x with (x + m + (-1) * m) at 1 by ring.
  rewrite Z_mod_plus_full. apply Z.mod_small. lia.
Qed.

Lemma wire_value (h : byte_order) (d : domain) (x : Z) :
  big_endian_output h d -> representable d x ->
  be_value (wire h d x) = sort_key d x.
Proof.
  intros Hh Hx. unfold wire, sort_key.
  pose proof (msb_weight_double (width d) (width_pos d)) as Hm.
  pose proof (msb_weight_pos (width d)) as Hp.
  destruct (class_of d) eqn:Hc.
  - unfold int_wire. rewrite Hc.
    rewrite shift_order_big_endian
      by (assumption || (unfold is_integer; now rewrite Hc)).
    rewrite be_value_flip_msb by auto using be_cells_range, be_cells_nonempty, width_pos.
    rewrite be_cells_length, be_value_be_cells, <- Hm.
    unfold representable, lower_bound, upper_bound in Hx.
    rewrite Hc, pow_sign_bit in Hx.
    destruct (Z.lt_ge_cases x 0).
    + rewrite mod_negative by lia.
      destruct (Z.ltb_spec (x + 2 * msb_weight (width d)) (msb_weight (width d))); lia.
    + rewrite Z.mod_small by lia.
      destruct (Z.ltb_spec x (msb_weight (width d))); lia.
  - unfold int_wire. rewrite Hc.
    rewrite shift_order_big_endian
      by (assumption || (unfold is_integer; now rewrite Hc)).
    rewrite be_value_be_cells.
    unfold representable, lower_bound, upper_bound in Hx.
    rewrite Hc, pow_bit_width in Hx. apply Z.mod_small. lia.
  - now apply float_wire_value.
Qed.

Lemma sort_key_monotone (d : domain) (a b : Z) :
  representable d a -> representable d b -> domain_lt d a b ->
  sort_key d a < sort_key d b.
Proof.
  intros Ha Hb Hlt. unfold domain_lt, sort_key in *.
  destruct (class_of d) eqn:Hc; try lia.
  destruct (float_domain d f Hc) as (Hf & Hw & Hr).
  apply Hr in Ha, Hb.
  apply float_lt_spec in Hlt; try assumption.
  destruct Hlt as (Na & Nb & Ho).
  rewrite !float_key_ordinal by assumption.
  destruct (Z.leb_spec 0 (ordinal f a)); destruct (Z.leb_spec 0 (ordinal f b)); lia.
Qed.

Lemma bytes_value_wire (h : byte_order) (d : domain) (x : Z) :
  bytes_value (map byte_of_cell (wire h d x)) = be_value (wire h d x).
Proof.
  unfold bytes_value. now rewrite map_cell_of_byte_of_cell by apply wire_range.
Qed.

(** X1. Order preservation where the output is big-endian: if [a < b] in the
    domain's order, which no NaN satisfies, the bytes of [a] are
    lexicographically below those of [b]. *)
Theorem order_preserved (h : byte_order) (d : domain) (a b : Z) :
  big_endian_output h d ->
  representable d a -> representable d b -> domain_lt d a b ->
  exists ea eb, encode h d a = Ok ea /\ encode h d b = Ok eb /\ lex_lt ea eb = true.
Proof.
  intros Hh Ha Hb Hlt.
  exists (map byte_of_cell (wire h d a)), (map byte_of_cell (wire h d b)).
  split; [now apply encode_closed|]. split; [now apply encode_closed|].
  apply lex_lt_bytes_value.
  - now rewrite !length_map, !wire_length.
  - rewrite !bytes_value_wire, !wire_value by assumption.
    now apply sort_key_monotone.
Qed.

(** X3. The unsigned layout on a little-endian host: byte [i] of the output
    holds bits [8(w-1-i) .. 8(w-i)) of the value. *)
Theorem unsigned_layout_little_endian_host (d : domain) (v : Z) :
  class_of d = unsigned_integer -> representable d v ->
  exists bs,
    encode LittleEndian d v = Ok bs /\ length bs = width d /\
    forall i, (i < width d)%nat ->
      cell_of_byte (nth i bs x00) =
      (v / 2 ^ (8 * Z.of_nat (width d - 1 - i))) mod 256.
Proof.
  intros Hc Hv. exists (map byte_of_cell (be_cells (width d) v)).
  split; [|split].
  - rewrite encode_closed by assumption. unfold wire, int_wire. now rewrite Hc.
  - now rewrite length_map, be_cells_length.
  - intros i Hi.
    change x00 with (byte_of_cell 0). rewrite map_nth.
    rewrite cell_of_byte_of_small, nth_be_cells by
      (assumption || (apply Forall_nth; [apply be_cells_range | now rewrite be_cells_length])).
    rewrite Z.pow_mul_r by lia. reflexivity.
Qed.

(** X4. The signed format on a little-endian host: the big-endian two's
    complement bytes with the top bit of byte 0 flipped, and back. *)
Theorem signed_format_little_endian_host (d : domain) :
  class_of d = signed_integer ->
  (forall v, representable d v ->
     encode LittleEndian d v =
     Ok (map byte_of_cell (flip_msb (be_cells (width d) v))) /\
     be_value (be_cells (width d) v) = v mod 2 ^ bit_width d) /\
  (forall bs, length bs = width d ->
     decode LittleEndian d bs =
     Ok (to_signed (bit_width d) (be_value (flip_msb (map cell_of_byte bs))))).
Proof.
  intros Hc. split.
  - intros v Hv. split.
    + rewrite encode_closed by assumption. unfold wire, int_wire. now rewrite Hc.
    + now rewrite be_value_be_cells, pow_bit_width.
  - intros bs Hlen. rewrite decode_closed by assumption.
    unfold unwire, int_unwire. now rewrite Hc.
Qed.

(** On a big-endian host no integer domain of more than one byte keeps the
    order of 1 and 256. *)
Lemma multi_byte_order_on_big_endian_host (d : domain) :
  is_integer d = true -> width d <> 1%nat ->
  representable d 1 /\ representable d 256 /\
  exists ea eb,
    encode BigEndian d 1 = Ok ea /\ encode BigEndian d 256 = Ok eb /\
    lex_lt ea eb = false /\ lex_lt eb ea = true.
Proof.
  intros Hd Hw.
  destruct d; try discriminate Hd; try (exfalso; apply Hw; reflexivity);
    (split; [cbv; split; discriminate|]);
    (split; [cbv; split; discriminate|]);
    eexists; eexists; repeat split.
Qed.

(** ** The scenarios of the specification, on a little-endian host *)

Example int8_extremes :
  encode LittleEndian int8 (-128) = Ok [x00] /\
  encode LittleEndian int8 127 = Ok [xff] /\
  lex_lt [x00] [xff] = true.
Proof. repeat split. Qed.

Example uint8_extremes :
  encode LittleEndian uint8 0 = Ok [x00] /\
  encode LittleEndian uint8 255 = Ok [xff].
Proof. repeat split. Qed.

Example int16_zero :
  encode LittleEndian int16 0 = Ok [x80; x00] /\
  decode LittleEndian int16 [x80; x00] = Ok 0.
Proof. repeat split. Qed.

(** -1.0, 1.0 and 2.0 as doubles *)
Example float64_order :
  encode LittleEndian float64 0xbff0000000000000
    = Ok [x40; x0f; xff; xff; xff; xff; xff; xff] /\
  encode LittleEndian float64 0x3ff0000000000000
    = Ok [xbf; xf0; x00; x00; x00; x00; x00; x00] /\
  encode LittleEndian float64 0x4000000000000000
    = Ok [xc0; x00; x00; x00; x00; x00; x00; x00] /\
  lex_lt [x40; x0f; xff; xff; xff; xff; xff; xff]
         [xbf; xf0; x00; x00; x00; x00; x00; x00] = true /\
  lex_lt [xbf; xf0; x00; x00; x00; x00; x00; x00]
         [xc0; x00; x00; x00; x00; x00; x00; x00] = true.
Proof. repeat split. Qed.

Example int32_short_input :
  decode LittleEndian int32 [x80; x00; x00] = Raise LengthError.
Proof. reflexivity. Qed.

Example uint32_bounds :
  encode LittleEndian uint32 4294967295 = Ok [xff; xff; xff; xff] /\
  encode LittleEndian uint32 4294967296 = Raise RangeError.
Proof. repeat split. Qed.

(** * Further properties of the entry points *)

Lemma decode_wrong_length (h : byte_order) (d : domain) (bs : list byte) :
  length bs <> width d -> decode h d bs = Raise LengthError.
Proof.
  intros Hlen.
  destruct d;
    cbv [decode to_int8 to_uint8 to_int16 to_uint16 to_int32 to_uint32
         to_int64 to_uint64 to_float32 to_float64];
    match goal with
    | |- context [(length bs =? ?n)%nat] =>
      destruct (Nat.eqb_spec (length bs) n); [contradiction | reflexivity]
    end.
Qed.

Lemma shift_order_single (h : byte_order) (cells : list Z) :
  length cells = 1%nat -> shift_order h cells = cells.
Proof.
  destruct cells as [|c [|c' rest]]; try discriminate.
  destruct h; reflexivity.
Qed.

Lemma shift_order_cells (h : byte_order) (d : domain) (cells : list Z) :
  is_integer d = true -> big_endian_output h d -> length cells = width d ->
  shift_order h cells = cells.
Proof.
  intros Hd [->|[H|H]] Hlen; [reflexivity | congruence |].
  apply shift_order_single. congruence.
Qed.

(** The integer decoders where the input is read big-endian: the value of
    the byte string, less the weight of the sign bit for a signed domain. *)
Lemma int_unwire_value (h : byte_order) (d : domain) (cells : list Z) :
  is_integer d = true -> big_endian_output h d ->
  Forall cell cells -> length cells = width d ->
  int_unwire h d cells =
  match class_of d with
  | signed_integer => be_value cells - msb_weight (width d)
  | _ => be_value cells
  end.
Proof.
  intros Hd Hh Hc Hlen. unfold int_unwire.
  pose proof (msb_weight_double (width d) (width_pos d)) as Hm.
  pose proof (msb_weight_pos (width d)) as Hp.
  assert (Hne : cells <> []).
  { intros ->. pose proof (width_pos d). simpl in Hlen. lia. }
  pose proof (be_value_range cells Hc) as Hr. rewrite Hlen in Hr.
  destruct (class_of d) eqn:Hcl.
  - rewrite (shift_order_cells h d) by (rewrite ?flip_msb_length; assumption).
    rewrite be_value_flip_msb, Hlen by assumption.
    unfold to_signed. rewrite pow_sign_bit, pow_bit_width, <- Hm.
    destruct (Z.ltb_spec (be_value cells) (msb_weight (width d))).
    + replace (be_value cells + msb_weight (width d) + msb_weight (width d))
        with (be_value cells + 1 * (2 * msb_weight (width d))) by ring.
      rewrite Z_mod_plus_full, Z.mod_small by lia. reflexivity.
    + replace (be_value cells - msb_weight (width d) + msb_weight (width d))
        with (be_value cells) by ring.
      rewrite Z.mod_small by lia. reflexivity.
  - now rewrite (shift_order_cells h d).
  - unfold is_integer in Hd. rewrite Hcl in Hd. discriminate.
Qed.

Lemma sign_weight_split (f : float_format) :
  standard f ->
  sign_weight f = infinity_code f + 2 ^ mant_bits f /\
  0 < 2 ^ mant_bits f <= infinity_code f.
Proof. intros [->| ->]; cbv; repeat split; discriminate. Qed.

(** Two patterns with one sort key are encoded as the same bytes. *)
Lemma float_same_key (h : byte_order) (d : domain) (f : float_format) (a b : Z) :
  class_of d = ieee_float f -> representable d a -> representable d b ->
  float_key f a = float_key f b -> encode h d a = encode h d b.
Proof.
  intros Hc Ha Hb Hk.
  rewrite !(encode_float_closed h d f) by assumption. do 2 f_equal.
  apply be_value_inj; auto using float_wire_range.
  - now rewrite !float_wire_length.
  - now rewrite !(float_wire_value d f).
Qed.


(** X2. Where the output is big-endian the byte order says nothing more than
    the numeric order: if the bytes of [a] are lexicographically below those
    of [b], and neither is a NaN, then [a < b] in the domain's order. *)
Theorem order_reflected (h : byte_order) (d : domain) (a b : Z) (ea eb : list byte) :
  big_endian_output h d ->
  representable d a -> representable d b ->
  domain_is_nan d a = false -> domain_is_nan d b = false ->
  encode h d a = Ok ea -> encode h d b = Ok eb ->
  lex_lt ea eb = true -> domain_lt d a b.
Proof.
  intros Hh Ha Hb Na Nb Ea Eb Hlt.
  rewrite encode_closed in Ea, Eb by assumption.
  injection Ea as <-. injection Eb as <-.
  apply lex_lt_bytes_value in Hlt; [|now rewrite !length_map, !wire_length].
  rewrite !bytes_value_wire, !wire_value in Hlt by assumption.
  unfold sort_key, domain_lt, domain_is_nan in *.
  destruct (class_of d) eqn:Hc; try lia.
  destruct (float_domain d f Hc) as (Hf & Hw & Hr).
  apply Hr in Ha, Hb.
  apply float_lt_spec; try assumption.
  rewrite !float_key_ordinal in Hlt by assumption.
  destruct (Z.leb_spec 0 (ordinal f a)); destruct (Z.leb_spec 0 (ordinal f b));
    repeat split; try assumption; lia.
Qed.

Lemma order_reflected_witness : domain_lt float64 0xfff0000000000000 0x8000000000000000.
Proof.
  apply (order_reflected BigEndian float64 0xfff0000000000000 0x8000000000000000
           [x00; x0f; xff; xff; xff; xff; xff; xff]
           [x80; x00; x00; x00; x00; x00; x00; x00]).
  - right. left. reflexivity.
  - cbv. split; discriminate.
  - cbv. split; discriminate.
  - reflexivity.
  - reflexivity.
  - reflexivity.
  - reflexivity.
  - reflexivity.
Defined.

(** X5. On a big-endian host an unsigned encoder returns the bytes of the
    little-endian host in reverse, and an unsigned decoder reads its input
    in reverse. *)
Theorem unsigned_reversed_on_big_endian_host (d : domain) :
  class_of d = unsigned_integer ->
  (forall v, representable d v ->
     exists bs, encode LittleEndian d v = Ok bs /\
                encode BigEndian d v = Ok (rev bs)) /\
  (forall bs, length bs = width d ->
     decode BigEndian d bs = decode LittleEndian d (rev bs)).
Proof.
  intros Hc. split.
  - intros v Hv. exists (map byte_of_cell (be_cells (width d) v)). split.
    + rewrite encode_closed by assumption. unfold wire, int_wire. now rewrite Hc.
    + rewrite encode_closed by assumption. unfold wire, int_wire. rewrite Hc.
      cbn [shift_order]. now rewrite map_rev.
  - intros bs Hlen.
    rewrite !decode_closed by (rewrite ?length_rev; assumption).
    unfold unwire, int_unwire. rewrite Hc. cbn [shift_order].
    now rewrite map_rev.
Qed.

Lemma unsigned_reversed_on_big_endian_host_witness :
  (exists bs, encode LittleEndian uint32 0x01020304 = Ok bs /\
              encode BigEndian uint32 0x01020304 = Ok (rev bs)) /\
  decode BigEndian uint16 [x01; x02] = decode LittleEndian uint16 (rev [x01; x02]).
Proof.
  split.
  - apply (proj1 (unsigned_reversed_on_big_endian_host uint32 eq_refl)).
    cbv. split; discriminate.
  - apply (proj2 (unsigned_reversed_on_big_endian_host uint16 eq_refl)).
    reflexivity.
Defined.

(** X6. The float functions and the one-byte integer functions do not depend
    on the host: they return the same result on a big-endian and on a
    little-endian host, for every argument. *)
Theorem host_independent (d : domain) :
  is_integer d = false \/ width d = 1%nat ->
  (forall x, encode BigEndian d x = encode LittleEndian d x) /\
  (forall bs, decode BigEndian d bs = decode LittleEndian d bs).
Proof.
  intros [Hd|Hw].
  - destruct (is_integer_class d Hd) as [f Hf]. split.
    + intros x. now rewrite !(encode_float_closed _ d f).
    + intros bs. destruct (Nat.eq_dec (length bs) (width d)) as [Hlen|Hlen].
      * now rewrite !decode_float_closed.
      * now rewrite !decode_wrong_length.
  - destruct d; try discriminate Hw; split; reflexivity.
Qed.

Lemma host_independent_witness :
  encode BigEndian float32 0x7fc00000 = encode LittleEndian float32 0x7fc00000 /\
  decode BigEndian int8 [x7f] = decode LittleEndian int8 [x7f].
Proof.
  split.
  - apply (proj1 (host_independent float32 (or_introl eq_refl))).
  - apply (proj2 (host_independent int8 (or_intror eq_refl))).
Defined.

(** X7. Where the output is big-endian a signed encoder is the unsigned
    encoder of the same width on the value shifted by the weight of the sign
    bit (offset binary): [from_int16 v] is [from_uint16 (v + 32768)]. *)
Theorem signed_is_offset_unsigned (h : byte_order) (d : domain) (v : Z) :
  class_of d = signed_integer -> big_endian_output h d -> representable d v ->
  encode h d v = encode h (unsigned_of d) (v + 2 ^ (bit_width d - 1)).
Proof.
  intros Hc Hh Hv.
  assert (Hd : is_integer d = true) by (unfold is_integer; now rewrite Hc).
  assert (Hcu : class_of (unsigned_of d) = unsigned_integer)
    by (destruct d; try discriminate Hc; reflexivity).
  assert (Hwu : width (unsigned_of d) = width d)
    by (destruct d; reflexivity).
  assert (Hhu : big_endian_output h (unsigned_of d)).
  { destruct Hh as [->|[H|H]]; [now left | congruence |].
    right. right. congruence. }
  pose proof (msb_weight_double (width d) (width_pos d)) as Hm.
  assert (Hvu : representable (unsigned_of d) (v + 2 ^ (bit_width d - 1))).
  { destruct d; try discriminate Hc; bounds Hv; cbn [unsigned_of];
      match goal with
      | |- representable ?u (_ + 2 ^ (bit_width ?s - 1)) =>
        let l := eval vm_compute in (lower_bound u) in
        let r := eval vm_compute in (upper_bound u) in
        let w := eval vm_compute in (2 ^ (bit_width s - 1)) in
        change (l <= v + w <= r)
      end; lia. }
  rewrite !encode_closed by assumption. do 2 f_equal.
  apply be_value_inj; auto using wire_range.
  - now rewrite !wire_length.
  - rewrite !wire_value by assumption. unfold sort_key.
    rewrite Hc, Hcu. now rewrite pow_sign_bit.
Qed.

Lemma signed_is_offset_unsigned_witness :
  encode LittleEndian int16 (-2) = encode LittleEndian uint16 (-2 + 2 ^ (bit_width int16 - 1)).
Proof.
  apply (signed_is_offset_unsigned LittleEndian int16 (-2) eq_refl).
  - left. reflexivity.
  - cbv. split; discriminate.
Defined.

(** X8. Where the input is read big-endian, comparing two byte strings of an
    integer domain is comparing the values they decode to. *)
Theorem decode_monotone (h : byte_order) (d : domain) (a b : list byte) :
  is_integer d = true -> big_endian_output h d ->
  length a = width d -> length b = width d ->
  exists x y, decode h d a = Ok x /\ decode h d b = Ok y /\
              (lex_lt a b = true <-> x < y).
Proof.
  intros Hd Hh Ha Hb.
  exists (unwire h d (map cell_of_byte a)), (unwire h d (map cell_of_byte b)).
  split; [now apply decode_closed|]. split; [now apply decode_closed|].
  rewrite lex_lt_bytes_value by congruence.
  unfold unwire, bytes_value.
  assert (Hu : forall bs, length bs = width d ->
            match class_of d with
            | ieee_float _ => float_unwire (map cell_of_byte bs)
            | _ => int_unwire h d (map cell_of_byte bs)
            end = int_unwire h d (map cell_of_byte bs)).
  { intros bs _. unfold is_integer in Hd. destruct (class_of d); congruence. }
  rewrite !Hu by assumption.
  rewrite !int_unwire_value
    by (auto using map_cell_of_byte_range; now rewrite length_map).
  destruct (class_of d); lia.
Qed.

Lemma decode_monotone_witness :
  exists x y, decode LittleEndian int16 [x7f; xff] = Ok x /\
              decode LittleEndian int16 [x80; x00] = Ok y /\
              (lex_lt [x7f; xff] [x80; x00] = true <-> x < y).
Proof.
  apply decode_monotone; try reflexivity. left. reflexivity.
Defined.

(** X9. A NaN with clear sign bit takes the complement branch of the
    encoder, and so is encoded as the same bytes as a non-negative number
    below the smallest normal one: the pattern [sign_weight - 1 - x], which
    is zero or subnormal. *)
Theorem positive_nan_collides (h : byte_order) (d : domain) (f : float_format) (x : Z) :
  class_of d = ieee_float f -> representable d x ->
  is_nan f x = true -> x < sign_weight f ->
  0 <= sign_weight f - 1 - x < 2 ^ mant_bits f - 1 /\
  is_nan f (sign_weight f - 1 - x) = false /\
  encode h d x = encode h d (sign_weight f - 1 - x).
Proof.
  intros Hc Hx Hn Hs.
  destruct (float_domain d f Hc) as (Hf & Hw & Hr).
  pose proof (proj1 (Hr x) Hx) as Hx'.
  destruct (sign_weight_split f Hf) as (Hsplit & Hm).
  assert (Hi : infinity_code f < x).
  { rewrite nan_magnitude in Hn by assumption.
    unfold magnitude, sign_of in Hn.
    destruct (Z.leb_spec (sign_weight f) x); [lia|].
    now apply Z.ltb_lt. }
  assert (Hy : 0 <= sign_weight f - 1 - x < 2 * sign_weight f) by lia.
  assert (Ny : is_nan f (sign_weight f - 1 - x) = false).
  { rewrite nan_magnitude by assumption. unfold magnitude, sign_of.
    destruct (Z.leb_spec (sign_weight f) (sign_weight f - 1 - x)); [lia|].
    apply Z.ltb_ge. lia. }
  split; [lia|]. split; [exact Ny|].
  apply (float_same_key h d f); try assumption; [now apply Hr|].
  unfold float_key.
  rewrite (nan_not_ge0 f x), float_ge0_cases by assumption.
  destruct (Z.leb_spec (sign_weight f - 1 - x) (sign_weight f)); [|lia].
  destruct (Z.ltb_spec (sign_weight f - 1 - x) (sign_weight f)); lia.
Qed.

Lemma positive_nan_collides_witness :
  0 <= sign_weight binary64 - 1 - 0x7ff8000000000000 < 2 ^ mant_bits binary64 - 1 /\
  is_nan binary64 (sign_weight binary64 - 1 - 0x7ff8000000000000) = false /\
  encode LittleEndian float64 0x7ff8000000000000 =
  encode LittleEndian float64 (sign_weight binary64 - 1 - 0x7ff8000000000000).
Proof.
  apply (positive_nan_collides LittleEndian float64 binary64 0x7ff8000000000000 eq_refl).
  - cbv. split; discriminate.
  - reflexivity.
  - reflexivity.
Defined.

Lemma magnitude_bound (f : float_format) (y : Z) :
  standard f -> 0 <= y < 2 * sign_weight f -> is_nan f y = false ->
  - infinity_code f <= ordinal f y <= infinity_code f.
Proof.
  intros Hf Hy Ny. rewrite nan_magnitude in Ny by assumption.
  apply Z.ltb_ge in Ny. pose proof (shape_range f y Hy).
  unfold ordinal. destruct (sign_of f y); lia.
Qed.

(** X10. A NaN with the sign bit set is encoded below every value that is
    not a NaN (below minus infinity), and the decoder returns its bit pattern
    unchanged. *)
Theorem negative_nan_sorts_first (h : byte_order) (d : domain) (f : float_format)
        (x y : Z) :
  class_of d = ieee_float f -> representable d x -> representable d y ->
  is_nan f x = true -> sign_weight f <= x -> is_nan f y = false ->
  exists ex ey, encode h d x = Ok ex /\ encode h d y = Ok ey /\
                lex_lt ex ey = true /\ decode h d ex = Ok x.
Proof.
  intros Hc Hx Hy Hn Hs Ny.
  destruct (float_domain d f Hc) as (Hf & Hw & Hr).
  pose proof (proj1 (Hr x) Hx) as Hx'. pose proof (proj1 (Hr y) Hy) as Hy'.
  destruct (sign_weight_split f Hf) as (Hsplit & Hm).
  assert (Hi : infinity_code f < x - sign_weight f).
  { rewrite nan_magnitude in Hn by assumption.
    unfold magnitude, sign_of in Hn.
    destruct (Z.leb_spec (sign_weight f) x); [|lia].
    now apply Z.ltb_lt. }
  assert (Kx : float_key f x = 2 * sign_weight f - 1 - x).
  { unfold float_key. now rewrite nan_not_ge0. }
  assert (Hh : big_endian_output h d).
  { right. left. unfold is_integer. now rewrite Hc. }
  exists (map byte_of_cell (wire h d x)), (map byte_of_cell (wire h d y)).
  split; [now apply encode_closed|]. split; [now apply encode_closed|]. split.
  - apply lex_lt_bytes_value; [now rewrite !length_map, !wire_length|].
    rewrite !bytes_value_wire, !wire_value by assumption.
    unfold sort_key. rewrite Hc, Kx, float_key_ordinal by assumption.
    pose proof (magnitude_bound f y Hf Hy' Ny).
    destruct (Z.leb_spec 0 (ordinal f y)); lia.
  - rewrite decode_encoded. f_equal. unfold wire, unwire. rewrite Hc.
    rewrite (float_unwire_value d f)
      by auto using float_wire_range, float_wire_length.
    rewrite (float_wire_value d f), Kx by assumption.
    unfold float_unkey.
    destruct (Z.ltb_spec (2 * sign_weight f - 1 - x) (sign_weight f)); lia.
Qed.

Lemma negative_nan_sorts_first_witness :
  exists ex ey, encode BigEndian float32 0xffc00000 = Ok ex /\
                encode BigEndian float32 0xff800000 = Ok ey /\
                lex_lt ex ey = true /\ decode BigEndian float32 ex = Ok 0xffc00000.
Proof.
  apply (negative_nan_sorts_first BigEndian float32 binary32 0xffc00000 0xff800000 eq_refl).
  - cbv. split; discriminate.
  - cbv. split; discriminate.
  - reflexivity.
  - cbv. discriminate.
  - reflexivity.
Defined.



(** X12. No float, NaN or not, is encoded above plus infinity. *)
Theorem nothing_above_infinity (h : byte_order) (d : domain) (f : float_format) (x : Z) :
  class_of d = ieee_float f -> representable d x ->
  exists ex ei, encode h d x = Ok ex /\ encode h d (infinity_code f) = Ok ei /\
                lex_lt ei ex = false.
Proof.
  intros Hc Hx.
  destruct (float_domain d f Hc) as (Hf & Hw & Hr).
  pose proof (proj1 (Hr x) Hx) as Hx'.
  destruct (sign_weight_split f Hf) as (Hsplit & Hm).
  assert (Hi' : 0 <= infinity_code f < 2 * sign_weight f) by lia.
  assert (Hi : representable d (infinity_code f)) by now apply Hr.
  assert (Ni : is_nan f (infinity_code f) = false).
  { rewrite nan_magnitude by assumption. unfold magnitude, sign_of.
    destruct (Z.leb_spec (sign_weight f) (infinity_code f)); [lia|].
    apply Z.ltb_ge. lia. }
  assert (Ki : float_key f (infinity_code f) = infinity_code f + sign_weight f).
  { unfold float_key. rewrite float_ge0_cases by assumption.
    destruct (Z.leb_spec (infinity_code f) (sign_weight f)); [|lia].
    destruct (Z.ltb_spec (infinity_code f) (sign_weight f)); lia. }
  assert (Kx : float_key f x <= infinity_code f + sign_weight f).
  { destruct (is_nan f x) eqn:Nx.
    - unfold float_key. rewrite nan_not_ge0 by assumption.
      rewrite nan_magnitude in Nx by assumption. apply Z.ltb_lt in Nx.
      unfold magnitude, sign_of in Nx.
      destruct (Z.leb_spec (sign_weight f) x); lia.
    - rewrite float_key_ordinal by assumption.
      pose proof (magnitude_bound f x Hf Hx' Nx).
      destruct (Z.leb_spec 0 (ordinal f x)); lia. }
  assert (Hh : big_endian_output h d).
  { right. left. unfold is_integer. now rewrite Hc. }
  exists (map byte_of_cell (wire h d x)), (map byte_of_cell (wire h d (infinity_code f))).
  split; [now apply encode_closed|]. split; [now apply encode_closed|].
  destruct (lex_lt _ _) eqn:L; [|reflexivity].
  apply lex_lt_bytes_value in L; [|now rewrite !length_map, !wire_length].
  rewrite !bytes_value_wire, !wire_value in L by assumption.
  unfold sort_key in L. rewrite Hc in L. lia.
Qed.

Lemma nothing_above_infinity_witness :
  exists ex ei, encode LittleEndian float32 0x7fffffff = Ok ex /\
                encode LittleEndian float32 (infinity_code binary32) = Ok ei /\
                lex_lt ei ex = false.
Proof.
  apply (nothing_above_infinity LittleEndian float32 binary32 0x7fffffff eq_refl).
  cbv. split; discriminate.
Defined.

Lemma order_preserved_witness :
  exists ea eb, encode LittleEndian int32 (-5) = Ok ea /\
                encode LittleEndian int32 7 = Ok eb /\ lex_lt ea eb = true.
Proof.
  apply order_preserved.
  - left. reflexivity.
  - cbv. split; discriminate.
  - cbv. split; discriminate.
  - reflexivity.
Defined.

Lemma unsigned_layout_little_endian_host_witness :
  exists bs,
    encode LittleEndian uint16 0x1234 = Ok bs /\ length bs = width uint16 /\
    forall i, (i < width uint16)%nat ->
      cell_of_byte (nth i bs x00) =
      (0x1234 / 2 ^ (8 * Z.of_nat (width uint16 - 1 - i))) mod 256.
Proof.
  apply (unsigned_layout_little_endian_host uint16 0x1234 eq_refl).
  cbv. split; discriminate.
Defined.

Lemma signed_format_little_endian_host_witness :
  (encode LittleEndian int16 (-2) =
   Ok (map byte_of_cell (flip_msb (be_cells (width int16) (-2)))) /\
   be_value (be_cells (width int16) (-2)) = (-2) mod 2 ^ bit_width int16) /\
  decode LittleEndian int16 [x7f; xfe] =
  Ok (to_signed (bit_width int16) (be_value (flip_msb (map cell_of_byte [x7f; xfe])))).
Proof.
  destruct (signed_format_little_endian_host int16 eq_refl) as [He Hd]. split.
  - apply He. cbv. split; discriminate.
  - apply Hd. reflexivity.
Defined.

Lemma float_round_trip_bits_witness :
  exists bs, encode BigEndian float32 0x80000000 = Ok bs /\
             decode BigEndian float32 bs =
             Ok (if 0x80000000 =? sign_weight binary32 then 0 else 0x80000000).
Proof.
  apply (float_round_trip_bits BigEndian float32 binary32 0x80000000 eq_refl).
  - cbv. split; discriminate.
  - reflexivity.
Defined.
